(** * The coffee machine: one brewing unit, one job at a time

    A shallow embedding of the machine with typed errors and an injectable
    brew time (type [Machine] with [StartJob], [RetrieveJob], [History],
    [Status], [awaitCompletion], [Product.valid] and [generateJobID]; the
    implementation behind [newServer]), and, in module [Handlers], of the
    handler-level machine of [main.go].

    Conventions of the embedding.
    - Instants ([time.Time]) and durations ([time.Duration]) are integers
      (nanoseconds); [t.Add d] is [t + d] and [t.Before u] is [t <? u].
    - Every method body runs between [m.mu.Lock()] and the deferred
      [m.mu.Unlock()], so a method is one atomic function on the machine.
    - What a method reads from outside (the clock, the entropy source
      [crypto/rand], the injectable [brewTimeFn]) is an explicit argument.
    - The goroutine started by [go m.awaitCompletion(jobID, d)] is a pending
      timer of the world; its critical section is a separate event. *)

From Stdlib Require Import ZArith NArith Lia Ascii String.
From Stdlib.Strings Require Import Byte.
From stdpp Require Import base option list gmap strings pretty.

Local Open Scope string_scope.
Local Open Scope list_scope.
Local Open Scope Z_scope.

(** ** Data model *)

(** [type Product string] *)
Definition Product := string.

Definition ProductCoffee : Product := "COFFEE".
Definition ProductStrongCoffee : Product := "STRONG_COFFEE".
Definition ProductCappuccino : Product := "CAPPUCCINO".
Definition ProductCoffeeWithMilk : Product := "COFFEE_WITH_MILK".
Definition ProductEspresso : Product := "ESPRESSO".
Definition ProductEspressoChocolate : Product := "ESPRESSO_CHOCOLATE".
Definition ProductKakao : Product := "KAKAO".
Definition ProductHotWater : Product := "HOT_WATER".

(** [var supportedProducts = map[Product]struct{}{...}]: a map used as a set. *)
Definition supportedProducts : gset Product :=
  {[ ProductCoffee; ProductStrongCoffee; ProductCappuccino;
     ProductCoffeeWithMilk; ProductEspresso; ProductEspressoChocolate;
     ProductKakao; ProductHotWater ]}.

(** [func (p Product) valid() bool] *)
Definition valid (p : Product) : bool := bool_decide (p ∈ supportedProducts).

(** [type MachineState int] with [iota] constants 0, 1, 2. *)
Inductive MachineState := StateAvailable | StateBrewing | StateBlocked.

Global Instance MachineState_eq_dec : EqDecision MachineState.
Proof. solve_decision. Defined.

Definition state_code (s : MachineState) : Z :=
  match s with StateAvailable => 0 | StateBrewing => 1 | StateBlocked => 2 end.

(** [type Job struct]; [JobRetrieved *time.Time] is [nil] until retrieval. *)
Record Job := mkJob {
  JobID : string;
  JobProduct : Product;
  JobStarted : Z;
  JobReady : Z;
  JobRetrieved : option Z
}.

(** The sentinel errors, and the wrapped error of [generateJobID]
    ([fmt.Errorf("generate job id: %w", err)], carrying its cause). *)
Inductive Error :=
  | ErrMachineBusy
  | ErrUnsupportedProduct
  | ErrJobNotFound
  | ErrJobNotReady
  | ErrJobAlreadyRetrieved
  | ErrJobIDExists
  | ErrGenerateJobID (cause : string).

(** A Go result pair [(T, error)]. *)
Inductive Result (A : Type) :=
  | Ok (a : A)
  | Err (e : Error).
Arguments Ok {A} a.
Arguments Err {A} e.

Definition is_ok {A} (r : Result A) : bool :=
  match r with Ok _ => true | Err _ => false end.

(** [type Machine struct]: the fields guarded by [mu].  [jobs] maps an
    identifier to the one record of that job ([map[string]*Job], each pointer
    held by the map alone), [history] is the slice of identifiers. *)
Record Machine := mkMachine {
  state : MachineState;
  jobs : gmap string Job;
  history : list string;
  currentJob : string
}.

(** [func NewMachine() *Machine] *)
Definition NewMachine : Machine :=
  {| state := StateAvailable; jobs := ∅; history := []; currentJob := "" |}.

(** ** Identifier generation *)

(** What [crand.Read(b[:])] did: an error, or the bytes it wrote. *)
Inductive Entropy :=
  | EntropyFail (cause : string)
  | EntropyBytes (bs : list byte).

(** [b[i]] of [var b [16]byte] after the read: Go zero-initialises the array,
    so a position the read did not write holds 0. *)
Definition byte_at (bs : list byte) (i : nat) : N :=
  Byte.to_N (nth i bs x00).

Definition hex_digit (n : N) : ascii :=
  match n with
  | 0 => "0" | 1 => "1" | 2 => "2" | 3 => "3" | 4 => "4" | 5 => "5"
  | 6 => "6" | 7 => "7" | 8 => "8" | 9 => "9" | 10 => "a" | 11 => "b"
  | 12 => "c" | 13 => "d" | 14 => "e" | _ => "f"
  end%N%char.

(** [%02x] of a byte value. *)
Definition hex2 (n : N) : string :=
  String (hex_digit (N.shiftr n 4)) (String (hex_digit (N.land n 15)) "").

(** The sixteen bytes after
    [b[6] = (b[6] & 0x0f) | 0x40] and [b[8] = (b[8] & 0x3f) | 0x80]. *)
Definition uuid_byte (bs : list byte) (i : nat) : N :=
  match i with
  | 6%nat => N.lor (N.land (byte_at bs 6) 15) 64
  | 8%nat => N.lor (N.land (byte_at bs 8) 63) 128
  | _ => byte_at bs i
  end.

Definition hex_run (bs : list byte) (idx : list nat) : string :=
  foldr (fun i acc => String.append (hex2 (uuid_byte bs i)) acc) "" idx.

(** The [Sprintf] of [generateJobID]: groups of 4, 2, 2, 2 and 6 bytes. *)
Definition format_uuid (bs : list byte) : string :=
  String.concat "-"
    [ hex_run bs [0; 1; 2; 3]%nat;
      hex_run bs [4; 5]%nat;
      hex_run bs [6; 7]%nat;
      hex_run bs [8; 9]%nat;
      hex_run bs [10; 11; 12; 13; 14; 15]%nat ].

(** [func generateJobID() (string, error)] *)
Definition generateJobID (e : Entropy) : Result string :=
  match e with
  | EntropyFail cause => Err (ErrGenerateJobID cause)
  | EntropyBytes bs => Ok (format_uuid bs)
  end.

(** ** The methods of the machine *)

(** What [StartJob] reads from outside: [time.Now()], [crand.Read] (consulted
    only when no identifier was supplied) and [m.brewTimeFn()]. *)
Record StartEnv := mkStartEnv {
  env_now : Z;
  env_entropy : Entropy;
  env_brew : Z
}.

(** A goroutine [awaitCompletion(jobID, d)] in [time.Sleep(d)]: it returns
    from the sleep no earlier than [timer_wake]. *)
Record Timer := mkTimer {
  timer_job : string;
  timer_wake : Z
}.

(** What one call of [StartJob] leaves behind: the machine, the goroutine it
    started (if any) and the returned pair. *)
Record Started := mkStarted {
  st_machine : Machine;
  st_timer : option Timer;
  st_result : Result Job
}.

Definition refuse (m : Machine) (e : Error) : Started :=
  {| st_machine := m; st_timer := None; st_result := Err e |}.

(** [func (m *Machine) StartJob(product Product, jobID string) (Job, error)] *)
Definition StartJob (m : Machine) (env : StartEnv)
    (product : Product) (jobID : string) : Started :=
  if negb (valid product) then refuse m ErrUnsupportedProduct
  else if negb (bool_decide (state m = StateAvailable)) then refuse m ErrMachineBusy
  else
    match (if bool_decide (jobID = "") then generateJobID (env_entropy env)
           else Ok jobID) with
    | Err e => refuse m e
    | Ok jobID =>
      match jobs m !! jobID with
      | Some _ => refuse m ErrJobIDExists
      | None =>
        let started := env_now env in
        let brewDuration := env_brew env in
        let readyAt := started + brewDuration in
        let job := {| JobID := jobID; JobProduct := product;
                      JobStarted := started; JobReady := readyAt;
                      JobRetrieved := None |} in
        {| st_machine :=
             {| state := StateBrewing;
                jobs := <[jobID := job]> (jobs m);
                history := history m ++ [jobID];
                currentJob := jobID |};
           st_timer :=
             Some {| timer_job := jobID;
                     timer_wake := started + Z.max 0 brewDuration |};
           st_result := Ok job |}
      end
    end.

(** [job.JobRetrieved = &now] *)
Definition set_retrieved (job : Job) (now : Z) : Job :=
  {| JobID := JobID job; JobProduct := JobProduct job;
     JobStarted := JobStarted job; JobReady := JobReady job;
     JobRetrieved := Some now |}.

(** [func (m *Machine) RetrieveJob(jobID string) (Job, error)]; [t1] and [t2]
    are the two readings of [time.Now()], in program order. *)
Definition RetrieveJob (m : Machine) (t1 t2 : Z) (jobID : string)
    : Machine * Result Job :=
  match jobs m !! jobID with
  | None => (m, Err ErrJobNotFound)
  | Some job =>
    match JobRetrieved job with
    | Some _ => (m, Err ErrJobAlreadyRetrieved)
    | None =>
      if t1 <? JobReady job then (m, Err ErrJobNotReady)
      else
        let job' := set_retrieved job t2 in
        let jobs' := <[jobID := job']> (jobs m) in
        if bool_decide (currentJob m = jobID) then
          ({| state := StateAvailable; jobs := jobs';
              history := history m; currentJob := "" |}, Ok job')
        else
          ({| state := state m; jobs := jobs';
              history := history m; currentJob := currentJob m |}, Ok job')
    end
  end.

(** [func (m *Machine) awaitCompletion(jobID string, duration time.Duration)],
    the part after [time.Sleep]. *)
Definition awaitCompletion (m : Machine) (jobID : string) : Machine :=
  match jobs m !! jobID with
  | Some job =>
    match JobRetrieved job with
    | None => {| state := StateBlocked; jobs := jobs m;
                 history := history m; currentJob := currentJob m |}
    | Some _ => m
    end
  | None => m
  end.

(** [func (m *Machine) Status() MachineState] and [Ready() bool] *)
Definition Status (m : Machine) : MachineState := state m.
Definition Ready (m : Machine) : bool := bool_decide (state m = StateAvailable).

(** [func (m *Machine) History() []Job]: the loop over [m.history] that
    appends a copy of every record it finds in [m.jobs]. *)
Definition History (m : Machine) : list Job :=
  foldl (fun acc id => match jobs m !! id with
                       | Some job => acc ++ [job]
                       | None => acc
                       end) [] (history m).

(** ** The world around the machine: clock, sleeping goroutines, callers *)

Record World := mkWorld {
  machine : Machine;
  timers : list Timer;
  clock : Z
}.

(** A process that has just built its machine, at instant [t0]. *)
Definition boot (t0 : Z) : World :=
  {| machine := NewMachine; timers := []; clock := t0 |}.

(** One critical section.  The clock never runs backwards: an event whose
    readings of [time.Now()] precede the world's clock cannot happen, and a
    goroutine leaves its [time.Sleep] no earlier than its wake instant. *)
Inductive Event :=
  | EvStartJob (env : StartEnv) (product : Product) (jobID : string)
  | EvRetrieveJob (t1 t2 : Z) (jobID : string)
  | EvAwaitCompletion (now : Z) (k : nat)
  | EvStatus (now : Z).

Inductive Output :=
  | OutJob (r : Result Job)
  | OutState (s : MachineState)
  | OutNone.

Definition step (w : World) (ev : Event) : option (World * Output) :=
  match ev with
  | EvStartJob env product jobID =>
    if bool_decide (clock w ≤ env_now env) then
      let s := StartJob (machine w) env product jobID in
      Some ({| machine := st_machine s;
               timers := timers w ++ option_list (st_timer s);
               clock := env_now env |}, OutJob (st_result s))
    else None
  | EvRetrieveJob t1 t2 jobID =>
    if bool_decide (clock w ≤ t1 ∧ t1 ≤ t2) then
      let r := RetrieveJob (machine w) t1 t2 jobID in
      Some ({| machine := r.1; timers := timers w; clock := t2 |}, OutJob r.2)
    else None
  | EvAwaitCompletion now k =>
    match timers w !! k with
    | Some tm =>
      if bool_decide (clock w ≤ now ∧ timer_wake tm ≤ now) then
        Some ({| machine := awaitCompletion (machine w) (timer_job tm);
                 timers := delete k (timers w);
                 clock := now |}, OutNone)
      else None
    | None => None
    end
  | EvStatus now =>
    if bool_decide (clock w ≤ now) then
      Some ({| machine := machine w; timers := timers w; clock := now |},
            OutState (Status (machine w)))
    else None
  end.

(** A schedule of events, with what each of them returned. *)
Fixpoint run (w : World) (evs : list Event) : option (World * list Output) :=
  match evs with
  | [] => Some (w, [])
  | ev :: evs =>
    match step w ev with
    | Some (w', o) =>
      match run w' evs with
      | Some (w'', os) => Some (w'', o :: os)
      | None => None
      end
    | None => None
    end
  end.

Inductive reachable : World → Prop :=
  | reach_boot t0 : reachable (boot t0)
  | reach_step w ev w' o :
      reachable w → step w ev = Some (w', o) → reachable w'.

(** The identifiers of the jobs a schedule admitted, in admission order. *)
Fixpoint admitted (evs : list Event) (outs : list Output) : list string :=
  match evs, outs with
  | EvStartJob _ _ _ :: evs, OutJob (Ok job) :: outs => JobID job :: admitted evs outs
  | _ :: evs, _ :: outs => admitted evs outs
  | _, _ => []
  end.

(** The guard of [awaitCompletion]: [ok && job.JobRetrieved == nil]. *)
Definition unretrieved (m : Machine) (jobID : string) : Prop :=
  ∃ job, jobs m !! jobID = Some job ∧ JobRetrieved job = None.

(** A goroutine of [jobID] is still in its sleep. *)
Definition sleeping (w : World) (jobID : string) : Prop :=
  jobID ∈ timer_job <$> timers w.

(** The shape of a well-formed version-4 identifier: 36 characters, hyphens
    at 8, 13, 18 and 23, lower-case hexadecimal digits elsewhere, the version
    digit 4 at 14 and a variant digit 8, 9, a or b at 19. *)
Definition one_of (cs : string) (c : ascii) : bool :=
  existsb (Ascii.eqb c) (list_ascii_of_string cs).

Definition is_hex : ascii → bool := one_of "0123456789abcdef".

Definition uuid4_char (i : nat) (c : ascii) : bool :=
  if existsb (Nat.eqb i) [8; 13; 18; 23]%nat then one_of "-" c
  else if Nat.eqb i 14 then one_of "4" c
  else if Nat.eqb i 19 then one_of "89ab" c
  else is_hex c.

Fixpoint uuid4_chars (i : nat) (cs : list ascii) : bool :=
  match cs with
  | [] => true
  | c :: cs => uuid4_char i c && uuid4_chars (S i) cs
  end.

Definition is_uuid4 (s : string) : bool :=
  Nat.eqb (String.length s) 36 && uuid4_chars 0 (list_ascii_of_string s).

(** The world a schedule leads to from a fresh process (the fresh process
    itself if the schedule cannot happen). *)
Definition after (t0 : Z) (evs : list Event) : World :=
  match run (boot t0) evs with
  | Some (w, _) => w
  | None => boot t0
  end.

(** The completion action as the design words it: "only if the resource is
    still tracking this same job as its active job", the transition to
    ReadyUnretrieved is taken. *)
Definition awaitCompletion_design (m : Machine) (jobID : string) : Machine :=
  if bool_decide (currentJob m = jobID) then
    {| state := StateBlocked; jobs := jobs m;
       history := history m; currentJob := currentJob m |}
  else m.

(** What the calls of a schedule returned, from a fresh process. *)
Definition outputs (t0 : Z) (evs : list Event) : list Output :=
  match run (boot t0) evs with
  | Some (_, outs) => outs
  | None => []
  end.

(** Sample schedules.  [brew_job1]: a caller admits KAKAO as "job-1" at
    instant 0 with a brew of 10.  [early_pickup]: the job is retrieved at 12,
    the goroutine wakes at 14.  [blocked_pickup]: the goroutine wakes at 11,
    the job is retrieved at 15. *)
Definition job1_env : StartEnv :=
  {| env_now := 0; env_entropy := EntropyBytes (replicate 16 x00);
     env_brew := 10 |}.

Definition brew_job1 : list Event :=
  [EvStartJob job1_env ProductKakao "job-1"].

Definition early_pickup : list Event :=
  brew_job1 ++ [EvStatus 12; EvRetrieveJob 12 12 "job-1"; EvStatus 13;
                EvAwaitCompletion 14 0; EvStatus 15].

Definition blocked_pickup : list Event :=
  brew_job1 ++ [EvRetrieveJob 5 5 "job-1"; EvAwaitCompletion 11 0;
                EvStatus 12; EvRetrieveJob 15 16 "job-1";
                EvRetrieveJob 17 17 "job-1"].

(** [uuid_taken]: a caller admits a job under the identifier that sixteen
    zero bytes of entropy format to, and retrieves it at 12. *)
Definition zero_uuid : string := "00000000-0000-4000-8000-000000000000".

Definition uuid_taken : list Event :=
  [EvStartJob job1_env ProductKakao zero_uuid; EvRetrieveJob 12 12 zero_uuid].

(** ** Readings of the specification that the machine does not satisfy *)

(** "Status becomes ReadyUnretrieved when Ready-at elapses": an unretrieved
    job whose ready instant has passed blocks the machine. *)
Definition blocked_from_ready_at : Prop :=
  ∀ w jobID job,
    reachable w →
    jobs (machine w) !! jobID = Some job →
    JobRetrieved job = None →
    JobReady job ≤ clock w →
    Status (machine w) = StateBlocked.

(** "Every Admit during the busy span fails with ResourceBusy", whatever
    its arguments. *)
Definition busy_for_every_admit : Prop :=
  ∀ w env product jobID,
    reachable w →
    Status (machine w) ≠ StateAvailable →
    st_result (StartJob (machine w) env product jobID) = Err ErrMachineBusy.

(** "Admit(KAKAO, job-1) twice: the second fails IdentifierConflict". *)
Definition duplicate_reports_conflict : Prop :=
  ∀ env1 env2,
    let first := StartJob NewMachine env1 ProductKakao "job-1" in
    is_ok (st_result first) = true →
    st_result (StartJob (st_machine first) env2 ProductKakao "job-1")
      = Err ErrJobIDExists.

(** "The generated identifier is always one no admitted job carries":
    whenever [StartJob] comes to generate (supported product, available
    machine), what it generates is not in the job set. *)
Definition generated_always_unused : Prop :=
  ∀ w env product jobID,
    reachable w →
    valid product = true →
    Status (machine w) = StateAvailable →
    generateJobID (env_entropy env) = Ok jobID →
    jobs (machine w) !! jobID = None.

(** ** Invariants of the reachable states *)

(** The bookkeeping of [jobs], [history], [currentJob] and [state]. *)
Record machine_inv (m : Machine) : Prop := {
  inv_no_empty : jobs m !! "" = None;
  inv_key : ∀ jobID job, jobs m !! jobID = Some job → JobID job = jobID;
  inv_active : ∀ jobID job,
    jobs m !! jobID = Some job → JobRetrieved job = None → currentJob m = jobID;
  inv_current : currentJob m ≠ "" → unretrieved m (currentJob m);
  inv_state : state m = StateAvailable ↔ currentJob m = "";
  inv_hist_nodup : NoDup (history m);
  inv_hist_dom : ∀ jobID, jobID ∈ history m ↔ is_Some (jobs m !! jobID)
}.

(** The machine against the clock and the sleeping goroutines. *)
Record world_inv (w : World) : Prop := {
  winv_machine : machine_inv (machine w);
  winv_retrieved : ∀ jobID job r,
    jobs (machine w) !! jobID = Some job → JobRetrieved job = Some r →
    JobReady job ≤ r ∧ r ≤ clock w;
  winv_timer_job : ∀ tm, tm ∈ timers w →
    ∃ job, jobs (machine w) !! timer_job tm = Some job ∧
           JobReady job ≤ timer_wake tm;
  winv_timer_nodup : NoDup (timer_job <$> timers w);
  winv_brewing : currentJob (machine w) ≠ "" →
    (state (machine w) = StateBrewing ↔ sleeping w (currentJob (machine w)));
  winv_blocked : state (machine w) = StateBlocked →
    ∃ job, jobs (machine w) !! currentJob (machine w) = Some job ∧
           JobReady job ≤ clock w
}.

(** * The handler-level machine of [main.go]

    A second implementation of the same machine, written as HTTP handlers
    on the machine itself.  It keeps pointers where the first keeps
    identifiers ([currentJob *Job], [jobs map[string]*Job], [history
    []*Job]), has no identifier check, brews for a fixed 30 seconds and
    draws identifiers from an external library ([uuid.New().String()], an
    input here).

    Every [*Job] the handler allocates is appended to [history] and nothing
    is ever removed from it, so a pointer is the position of its record in
    [history].  [JobRetrieved] is a [time.Time] whose zero value means "not
    retrieved" ([IsZero]); [time.Now()] is never the zero instant, so the
    field is an option here as well. *)
Module Handlers.

(** [var supportedProducts = map[Product]bool{...}]; a missing key reads
    [false]. *)
Definition supportedProducts : gmap Product bool :=
  list_to_map
    [ (ProductCoffee, true); (ProductStrongCoffee, true);
      (ProductCappuccino, true); (ProductCoffeeWithMilk, true);
      (ProductEspresso, true); (ProductEspressoChocolate, true);
      (ProductKakao, true); (ProductHotWater, true) ].

Definition supported (p : Product) : bool :=
  default false (supportedProducts !! p).

Record Machine := mkMachine {
  state : MachineState;
  currentJob : option nat;
  jobs : gmap string nat;
  history : list Job
}.

Definition NewMachine : Machine :=
  {| state := StateAvailable; currentJob := None; jobs := ∅; history := [] |}.

(** What a handler writes: [http.Error(w, msg, code)], or the encoded job
    (status 200). *)
Inductive Response :=
  | Failure (msg : string) (code : Z)
  | Encoded (job : Job).

(** The request of [/start-job]: its method, and its body as decoded into
    [{Product, JobID}] ([None]: the body did not decode). *)
Record StartRequest := mkStartRequest {
  req_method : string;
  req_body : option (Product * string)
}.

(** [brewDuration := 30 * time.Second] *)
Definition brewDuration : Z := 30 * 1000000000.

(** The goroutine of [StartJob], asleep: the pointer it holds, and the
    instant before which it cannot wake. *)
Record Sleeper := mkSleeper {
  sl_job : nat;
  sl_wake : Z
}.

Record Started := mkStarted {
  st_machine : Machine;
  st_sleeper : option Sleeper;
  st_response : Response
}.

Definition reject (m : Machine) (msg : string) (code : Z) : Started :=
  {| st_machine := m; st_sleeper := None; st_response := Failure msg code |}.

(** [func (m *Machine) StartJob(w http.ResponseWriter, r *http.Request)];
    [fresh] is what [uuid.New().String()] would return. *)
Definition StartJob (m : Machine) (now : Z) (fresh : string)
    (r : StartRequest) : Started :=
  if negb (bool_decide (req_method r = "POST"))
  then reject m "Method not allowed" 405
  else
    match req_body r with
    | None => reject m "Invalid request body" 400
    | Some (product, reqJobID) =>
      if negb (supported product) then reject m "Unsupported product" 400
      else if negb (bool_decide (state m = StateAvailable))
      then reject m "Machine is busy" 503
      else
        let jobID := if bool_decide (reqJobID = "") then fresh else reqJobID in
        let job := {| JobID := jobID; JobProduct := product;
                      JobStarted := now; JobReady := now + brewDuration;
                      JobRetrieved := None |} in
        let ptr := length (history m) in
        {| st_machine :=
             {| state := StateBrewing; currentJob := Some ptr;
                jobs := <[jobID := ptr]> (jobs m);
                history := history m ++ [job] |};
           st_sleeper := Some {| sl_job := ptr; sl_wake := now + brewDuration |};
           st_response := Encoded job |}
    end.

(** The critical section of the goroutine:
    [if m.currentJob == j { m.state = StateBlocked }]. *)
Definition wake (m : Machine) (j : nat) : Machine :=
  if bool_decide (currentJob m = Some j) then
    {| state := StateBlocked; currentJob := currentJob m;
       jobs := jobs m; history := history m |}
  else m.

(** [func (m *Machine) RetrieveJob(w http.ResponseWriter, r *http.Request)];
    [jobID] is the query parameter, [t1] and [t2] the two clock readings.
    A pointer of [jobs] always has its record; the model answers 404 should
    it not. *)
Definition RetrieveJob (m : Machine) (t1 t2 : Z) (jobID : string)
    : Machine * Response :=
  if bool_decide (jobID = "") then (m, Failure "Missing jobID" 400)
  else
    match jobs m !! jobID with
    | None => (m, Failure "Job not found" 404)
    | Some ptr =>
      match history m !! ptr with
      | None => (m, Failure "Job not found" 404)
      | Some job =>
        match JobRetrieved job with
        | Some _ => (m, Failure "Job already retrieved" 410)
        | None =>
          if t1 <? JobReady job then (m, Failure "Job not ready" 503)
          else
            let job' := set_retrieved job t2 in
            let history' := <[ptr := job']> (history m) in
            if bool_decide (currentJob m = Some ptr) then
              ({| state := StateAvailable; currentJob := None;
                  jobs := jobs m; history := history' |}, Encoded job')
            else
              ({| state := state m; currentJob := currentJob m;
                  jobs := jobs m; history := history' |}, Encoded job')
        end
      end
    end.

Record World := mkWorld {
  machine : Machine;
  sleepers : list Sleeper;
  clock : Z
}.

Definition boot (t0 : Z) : World :=
  {| machine := NewMachine; sleepers := []; clock := t0 |}.

Inductive Event :=
  | EvStartJob (now : Z) (fresh : string) (r : StartRequest)
  | EvRetrieveJob (t1 t2 : Z) (jobID : string)
  | EvWake (now : Z) (k : nat).

Definition step (w : World) (ev : Event) : option (World * option Response) :=
  match ev with
  | EvStartJob now fresh r =>
    if bool_decide (clock w ≤ now) then
      let s := StartJob (machine w) now fresh r in
      Some ({| machine := st_machine s;
               sleepers := sleepers w ++ option_list (st_sleeper s);
               clock := now |}, Some (st_response s))
    else None
  | EvRetrieveJob t1 t2 jobID =>
    if bool_decide (clock w ≤ t1 ∧ t1 ≤ t2) then
      let r := RetrieveJob (machine w) t1 t2 jobID in
      Some ({| machine := r.1; sleepers := sleepers w; clock := t2 |}, Some r.2)
    else None
  | EvWake now k =>
    match sleepers w !! k with
    | Some sl =>
      if bool_decide (clock w ≤ now ∧ sl_wake sl ≤ now) then
        Some ({| machine := wake (machine w) (sl_job sl);
                 sleepers := delete k (sleepers w);
                 clock := now |}, None)
      else None
    | None => None
    end
  end.

Inductive reachable : World → Prop :=
  | reach_boot t0 : reachable (boot t0)
  | reach_step w ev w' o :
      reachable w → step w ev = Some (w', o) → reachable w'.

(** The current pointer, if any, points at an unretrieved record; pointers
    of [jobs] are positions of [history]; a retrieval instant is at or after
    the ready instant. *)
Record world_inv (w : World) : Prop := {
  winv_current : ∀ p, currentJob (machine w) = Some p →
    ∃ job, history (machine w) !! p = Some job ∧ JobRetrieved job = None;
  winv_pointer : ∀ jobID p, jobs (machine w) !! jobID = Some p →
    is_Some (history (machine w) !! p);
  winv_retrieved : ∀ p job r,
    history (machine w) !! p = Some job → JobRetrieved job = Some r →
    JobReady job ≤ r
}.

(** The handlers that only read the machine.  A reply is the status code
    and the body written. *)
Inductive Body :=
  | Text (s : string)
  | Jobs (js : list Job)
  | NoBody.

(** [func (m *Machine) Healthz] *)
Definition Healthz (m : Machine) : Z * Body := (200, Text "OK").

(** [func (m *Machine) Readyz] *)
Definition Readyz (m : Machine) : Z * Body :=
  if bool_decide (state m = StateAvailable) then (200, Text "OK")
  else (503, Text "Busy").

(** [func (m *Machine) Status]: the status line alone. *)
Definition Status (m : Machine) : Z * Body :=
  if bool_decide (state m = StateAvailable) then (200, NoBody)
  else (503, NoBody).

(** [func (m *Machine) Metrics]: the three [Fprintf]s; [%d] of [m.state]. *)
Definition Metrics (m : Machine) : Z * Body :=
  (200, Text (String.concat ""
    [ "# HELP coffee_machine_status The current status of the coffee machine (0=Available, 1=Brewing, 2=Blocked)";
      String "010" "";
      "# TYPE coffee_machine_status gauge"; String "010" "";
      "coffee_machine_status "; pretty (state_code (state m));
      String "010" "" ])).

(** [func (m *Machine) History]: the slice of records, encoded. *)
Definition History (m : Machine) : Z * Body := (200, Jobs (history m)).

(** Every record but the one [currentJob] points at is retrieved, and the
    machine is available exactly when [currentJob] is [nil]. *)
Record busy_inv (m : Machine) : Prop := {
  binv_state : state m = StateAvailable ↔ currentJob m = None;
  binv_others : ∀ p job, history m !! p = Some job →
    JobRetrieved job = None → currentJob m = Some p
}.

End Handlers.

(** * The default brew time *)

Definition minBrewSeconds : Z := 20.
Definition maxBrewSeconds : Z := 55.

(** [time.Second], in nanoseconds. *)
Definition Second : Z := 1000000000.

(** [func defaultBrewTime(r *mrand.Rand) func() time.Duration], one call of
    the function it returns; [intn] is what [r.Intn] answers at that call. *)
Definition defaultBrewTime (intn : Z → Z) : Z :=
  let seconds := intn (maxBrewSeconds - minBrewSeconds + 1) + minBrewSeconds in
  seconds * Second.

(** * The HTTP server in front of the machine

    The handlers of [newServer], as functions of the machine and of the
    parts of the request they read.  A reply is the status code and the value
    written: text, or the value handed to the JSON encoder. *)

Inductive Payload :=
  | PText (s : string)
  | PJob (job : Job)
  | PJobs (js : list Job)
  | PState (name : string) (code : Z).

Record Reply := mkReply {
  reply_code : Z;
  reply_body : Payload
}.

Definition LF : string := String "010" "".

(** [http.Error(w, msg, code)]: the message and a line feed. *)
Definition http_Error (msg : string) (code : Z) : Reply :=
  {| reply_code := code; reply_body := PText (String.append msg LF) |}.

(** [func writeJSON(w, status, payload)] *)
Definition writeJSON (status : Z) (payload : Payload) : Reply :=
  {| reply_code := status; reply_body := payload |}.

(** [func stateString(state MachineState) string]; the three constants are
    the only values a [MachineState] of the machine ever holds. *)
Definition stateString (s : MachineState) : string :=
  match s with
  | StateAvailable => "available"
  | StateBrewing => "brewing"
  | StateBlocked => "blocked"
  end.

(** [func (s *server) handleHealthz] *)
Definition handleHealthz (m : Machine) : Reply :=
  {| reply_code := 200; reply_body := PText "ok" |}.

(** [func (s *server) handleReadyz] *)
Definition handleReadyz (m : Machine) : Reply :=
  if Ready m then {| reply_code := 200; reply_body := PText "ready" |}
  else http_Error "busy" 503.

(** [func (s *server) handleStatus] *)
Definition handleStatus (m : Machine) : Reply :=
  let st := Status m in
  writeJSON (if bool_decide (st ≠ StateAvailable) then 503 else 200)
            (PState (stateString st) (state_code st)).

(** [func (s *server) handleHistory] *)
Definition handleHistory (m : Machine) : Reply :=
  writeJSON 200 (PJobs (History m)).

(** [func (s *server) handleMetrics]; [strconv.Itoa] prints in decimal. *)
Definition handleMetrics (m : Machine) : Reply :=
  {| reply_code := 200;
     reply_body := PText (String.concat ""
       ["coffee_machine_status "; pretty (state_code (Status m)); LF]) |}.

(** What [handleStartJob] leaves behind. *)
Record Served := mkServed {
  sv_machine : Machine;
  sv_timer : option Timer;
  sv_reply : Reply
}.

(** [func (s *server) handleStartJob]; [body] is the request body as the
    decoder reads it into [{JobID, Product}] ([None]: it did not decode). *)
Definition handleStartJob (m : Machine) (env : StartEnv) (method : string)
    (body : option (string * Product)) : Served :=
  if negb (bool_decide (method = "POST")) then
    {| sv_machine := m; sv_timer := None;
       sv_reply := http_Error "method not allowed" 405 |}
  else
    match body with
    | None =>
      {| sv_machine := m; sv_timer := None;
         sv_reply := http_Error "invalid payload" 400 |}
    | Some (jobID, product) =>
      let s := StartJob m env product jobID in
      {| sv_machine := st_machine s; sv_timer := st_timer s;
         sv_reply :=
           match st_result s with
           | Err ErrMachineBusy => http_Error "machine unavailable" 503
           | Err ErrUnsupportedProduct => http_Error "unsupported product" 400
           | Err ErrJobIDExists => http_Error "job ID already exists" 409
           | Err _ => http_Error "internal error" 500
           | Ok job => writeJSON 202 (PJob job)
           end |}
    end.

(** [r.URL.Query().Get(key)]: the first value of the key, or the empty
    string. *)
Definition query_get (q : gmap string (list string)) (key : string) : string :=
  match q !! key with
  | Some (v :: _) => v
  | _ => ""
  end.

(** [func (s *server) handleRetrieveJob] *)
Definition handleRetrieveJob (m : Machine) (t1 t2 : Z)
    (q : gmap string (list string)) : Machine * Reply :=
  let jobID := query_get q "jobId" in
  if bool_decide (jobID = "") then (m, http_Error "missing jobId" 400)
  else
    let r := RetrieveJob m t1 t2 jobID in
    (r.1,
     match r.2 with
     | Err ErrJobNotFound => http_Error "job not found" 404
     | Err ErrJobNotReady => http_Error "job not ready" 503
     | Err ErrJobAlreadyRetrieved => http_Error "job already retrieved" 410
     | Err _ => http_Error "internal error" 500
     | Ok job => writeJSON 200 (PJob job)
     end).

(** ** Reading an identifier back *)

(** The value of a hexadecimal digit, and of two of them. *)
Definition unhex_digit (c : ascii) : N :=
  match index 0 (String c "") "0123456789abcdef" with
  | Some i => N.of_nat i
  | None => 0
  end.

Definition unhex2 (hi lo : ascii) : N := (16 * unhex_digit hi + unhex_digit lo)%N.

(** The sixteen byte values an identifier spells, read from the five groups
    between the hyphens. *)
Fixpoint unhex_run (cs : list ascii) : list N :=
  match cs with
  | hi :: lo :: cs => unhex2 hi lo :: unhex_run cs
  | _ => []
  end.

Definition parse_uuid (s : string) : list N :=
  let cs := list_ascii_of_string s in
  unhex_run (take 8 cs ++ take 4 (drop 9 cs) ++ take 4 (drop 14 cs)
             ++ take 4 (drop 19 cs) ++ drop 24 cs).

(** Any two jobs are apart in time: one of them was retrieved no later than
    the other started. *)
Definition apart (a b : Job) : Prop :=
  (∃ r, JobRetrieved a = Some r ∧ r ≤ JobStarted b) ∨
  (∃ r, JobRetrieved b = Some r ∧ r ≤ JobStarted a).

(** A later state of a job's record: the same identifier, product, start
    and ready instants, and the same retrieval instant if it had one. *)
Definition evolves (a b : Job) : Prop :=
  JobID b = JobID a ∧ JobProduct b = JobProduct a ∧
  JobStarted b = JobStarted a ∧ JobReady b = JobReady a ∧
  (∀ r, JobRetrieved a = Some r → JobRetrieved b = Some r).

(** [two_jobs]: after [blocked_pickup], ESPRESSO is admitted as "job-2" at
    instant 20 with a brew of 30. *)
Definition two_jobs : list Event :=
  blocked_pickup ++
  [EvStartJob {| env_now := 20; env_entropy := EntropyBytes (replicate 16 x00);
                 env_brew := 30 |} ProductEspresso "job-2"].

(** Samples for the handler-level machine: the world after one accepted
    [/start-job] at instant 0, and a machine whose only job, "job-1", has
    been retrieved. *)
Definition handlers_started : Handlers.World :=
  match Handlers.step (Handlers.boot 0)
          (Handlers.EvStartJob 0 "id-1"
             {| Handlers.req_method := "POST";
                Handlers.req_body := Some (ProductKakao, "") |}) with
  | Some (w, _) => w
  | None => Handlers.boot 0
  end.

Definition handlers_idle : Handlers.Machine :=
  {| Handlers.state := StateAvailable; Handlers.currentJob := None;
     Handlers.jobs := {[ "job-1" := 0%nat ]};
     Handlers.history :=
       [mkJob "job-1" ProductKakao 0 30000000000 (Some 31000000000)] |}.

(** * Properties *)

(** ** Products *)

Lemma supportedProducts_size : size supportedProducts = 8%nat.
Proof. reflexivity. Qed.

Lemma valid_spec (p : Product) : valid p = true ↔ p ∈ supportedProducts.
Proof. unfold valid. apply bool_decide_eq_true. Qed.

Lemma valid_false (p : Product) : p ∉ supportedProducts → valid p = false.
Proof. intros H. unfold valid. by apply bool_decide_eq_false. Qed.

(** ** Identifiers *)

Lemma is_hex_hex_digit (n : N) : is_hex (hex_digit n) = true.
Proof.
  destruct n as [|p]; [reflexivity|].
  do 4 (try destruct p as [p|p|]); reflexivity.
Qed.

Lemma version_digit (b : byte) :
  hex_digit (N.shiftr (N.lor (N.land (Byte.to_N b) 15) 64) 4) = "4"%char.
Proof. destruct b; reflexivity. Qed.

Lemma variant_digit (b : byte) :
  one_of "89ab"
    (hex_digit (N.shiftr (N.lor (N.land (Byte.to_N b) 63) 128) 4)) = true.
Proof. destruct b; reflexivity. Qed.

Lemma format_uuid_is_uuid4 (bs : list byte) : is_uuid4 (format_uuid bs) = true.
Proof.
  cbv -[hex_digit N.shiftr N.land N.lor Byte.to_N nth is_hex one_of].
  rewrite !is_hex_hex_digit, version_digit, variant_digit.
  reflexivity.
Qed.

Lemma format_uuid_nonempty (bs : list byte) : format_uuid bs ≠ "".
Proof.
  intros H. pose proof (format_uuid_is_uuid4 bs) as U.
  rewrite H in U. discriminate U.
Qed.

Lemma generateJobID_ok (e : Entropy) (jobID : string) :
  generateJobID e = Ok jobID → jobID ≠ "" ∧ is_uuid4 jobID = true.
Proof.
  destruct e as [cause|bs]; simpl; intros H; [discriminate|].
  injection H as <-. split; [apply format_uuid_nonempty|apply format_uuid_is_uuid4].
Qed.

(** ** The sample schedules, run *)

Example generateJobID_zeros :
  generateJobID (EntropyBytes (replicate 16 x00)) = Ok zero_uuid.
Proof. reflexivity. Qed.

Example generateJobID_ones :
  generateJobID (EntropyBytes (replicate 16 xff))
    = Ok "ffffffff-ffff-4fff-bfff-ffffffffffff".
Proof. reflexivity. Qed.

Example valid_samples :
  valid ProductKakao = true ∧ valid "INVALID" = false ∧ valid "kakao" = false.
Proof. vm_compute. done. Qed.

(** Retrieval at 12 overtakes the goroutine: brewing at 12, available at 13,
    and still available after the goroutine has run at 14. *)
Example early_pickup_outputs :
  outputs 0 early_pickup =
    [ OutJob (Ok (mkJob "job-1" ProductKakao 0 10 None));
      OutState StateBrewing;
      OutJob (Ok (mkJob "job-1" ProductKakao 0 10 (Some 12)));
      OutState StateAvailable;
      OutNone;
      OutState StateAvailable ].
Proof. vm_compute. reflexivity. Qed.

(** The goroutine runs at 11, before any retrieval: not ready at 5, blocked
    at 12, retrieved at 16, gone at 17. *)
Example blocked_pickup_outputs :
  outputs 0 blocked_pickup =
    [ OutJob (Ok (mkJob "job-1" ProductKakao 0 10 None));
      OutJob (Err ErrJobNotReady);
      OutNone;
      OutState StateBlocked;
      OutJob (Ok (mkJob "job-1" ProductKakao 0 10 (Some 16)));
      OutJob (Err ErrJobAlreadyRetrieved) ].
Proof. vm_compute. reflexivity. Qed.

(** A goroutine cannot leave its sleep before its wake instant. *)
Example goroutine_not_before_wake :
  run (boot 0) (brew_job1 ++ [EvAwaitCompletion 9 0]) = None.
Proof. vm_compute. reflexivity. Qed.

(** ** What each method can do *)

Section Methods.
Context (m : Machine).

(** [StartJob] either refuses and leaves the machine alone, or admits. *)
Lemma StartJob_cases (env : StartEnv) (product : Product) (jobID : string) :
  (∃ e, StartJob m env product jobID = refuse m e) ∨
  (∃ id,
      valid product = true ∧ state m = StateAvailable ∧
      id ≠ "" ∧ jobs m !! id = None ∧
      (if bool_decide (jobID = "")
       then generateJobID (env_entropy env) = Ok id else id = jobID) ∧
      let job := {| JobID := id; JobProduct := product;
                    JobStarted := env_now env;
                    JobReady := env_now env + env_brew env;
                    JobRetrieved := None |} in
      StartJob m env product jobID =
        {| st_machine :=
             {| state := StateBrewing; jobs := <[id := job]> (jobs m);
                history := history m ++ [id]; currentJob := id |};
           st_timer :=
             Some {| timer_job := id;
                     timer_wake := env_now env + Z.max 0 (env_brew env) |};
           st_result := Ok job |}).
Proof.
  unfold StartJob.
  destruct (valid product) eqn:Hv; simpl; [|left; eauto].
  case_bool_decide as Hs; simpl; [|left; eauto].
  case_bool_decide as Hid.
  - destruct (generateJobID (env_entropy env)) as [id|e] eqn:Hg; [|left; eauto].
    destruct (jobs m !! id) eqn:Hl; [left; eauto|].
    right. exists id. destruct (generateJobID_ok _ _ Hg) as [Hne _].
    by split_and!.
  - destruct (jobs m !! jobID) eqn:Hl; [left; eauto|].
    right. exists jobID. by split_and!.
Qed.

(** [RetrieveJob] either refuses and leaves the machine alone, or stamps
    the record of an unretrieved job whose ready instant has come. *)
Lemma RetrieveJob_cases (t1 t2 : Z) (jobID : string) :
  (∃ e, RetrieveJob m t1 t2 jobID = (m, Err e)) ∨
  (∃ job,
      jobs m !! jobID = Some job ∧ JobRetrieved job = None ∧
      JobReady job ≤ t1 ∧
      RetrieveJob m t1 t2 jobID =
        (if bool_decide (currentJob m = jobID) then
           {| state := StateAvailable;
              jobs := <[jobID := set_retrieved job t2]> (jobs m);
              history := history m; currentJob := "" |}
         else
           {| state := state m;
              jobs := <[jobID := set_retrieved job t2]> (jobs m);
              history := history m; currentJob := currentJob m |},
         Ok (set_retrieved job t2))).
Proof.
  unfold RetrieveJob.
  destruct (jobs m !! jobID) as [job|] eqn:Hl; [|left; eauto].
  destruct (JobRetrieved job) eqn:Hr; [left; eauto|].
  destruct (Z.ltb_spec t1 (JobReady job)); [left; eauto|].
  right. exists job. repeat split; try done.
  case_bool_decide; reflexivity.
Qed.

(** The goroutine's critical section changes [state] at most, and only to
    [StateBlocked], and only under its guard. *)
Lemma awaitCompletion_cases (jobID : string) :
  (¬ unretrieved m jobID ∧ awaitCompletion m jobID = m) ∨
  (unretrieved m jobID ∧
   awaitCompletion m jobID =
     {| state := StateBlocked; jobs := jobs m;
        history := history m; currentJob := currentJob m |}).
Proof.
  unfold awaitCompletion, unretrieved.
  destruct (jobs m !! jobID) as [job|] eqn:Hl.
  - destruct (JobRetrieved job) eqn:Hr; [left|right; eauto].
    split; [|done]. intros (j & [= <-] & Hn). congruence.
  - left. split; [|done]. by intros (j & Hj & _).
Qed.
End Methods.

(** ** The invariants hold in every reachable world *)

Lemma NewMachine_inv : machine_inv NewMachine.
Proof.
  split; simpl; try done.
  - apply NoDup_nil_2.
  - intros id. rewrite lookup_empty. split; [by intros ?%elem_of_nil|by intros [? ?]].
Qed.

Lemma StartJob_inv (m : Machine) env product jobID :
  machine_inv m → machine_inv (st_machine (StartJob m env product jobID)).
Proof.
  intros I.
  destruct (StartJob_cases m env product jobID)
    as [[e ->]|(id & _ & Hs & Hne & Hfresh & _ & ->)]; [done|].
  destruct I as [I0 Ik Ia Ic Is Hn Hd]. split; simpl.
  - by rewrite lookup_insert_ne.
  - intros k job. rewrite lookup_insert. case_decide; [|eauto].
    by intros [= <-].
  - intros k job. rewrite lookup_insert. case_decide; [done|].
    intros Hk Hr. specialize (Ia _ _ Hk Hr).
    apply Is in Hs. congruence.
  - intros _. eexists. simpl. rewrite lookup_insert_eq. done.
  - split; [done|]. intros ->. done.
  - apply NoDup_app. split_and!; [done| |apply NoDup_singleton].
    intros k Hk ->%list_elem_of_singleton. apply Hd in Hk as [? ?]. congruence.
  - intros k. rewrite elem_of_app, list_elem_of_singleton, Hd, lookup_insert.
    case_decide; subst; split; eauto. intros [?|?]; [done|congruence].
Qed.

Lemma RetrieveJob_inv (m : Machine) t1 t2 jobID :
  machine_inv m → machine_inv (RetrieveJob m t1 t2 jobID).1.
Proof.
  intros I.
  destruct (RetrieveJob_cases m t1 t2 jobID)
    as [[e ->]|(job & Hl & Hr & _ & ->)]; [done|].
  destruct I as [I0 Ik Ia Ic Is Hn Hd].
  rewrite bool_decide_eq_true_2 by eauto.
  assert (jobID ≠ "") as Hne by congruence.
  split; simpl; try done.
  - by rewrite lookup_insert_ne.
  - intros k j. rewrite lookup_insert. case_decide; [|eauto].
    intros [= <-]. simpl. subst k. eauto.
  - intros k j. rewrite lookup_insert. case_decide; [by intros [= <-]|].
    intros Hk Hj. pose proof (Ia _ _ Hk Hj). pose proof (Ia _ _ Hl Hr). congruence.
  - intros k. rewrite Hd, lookup_insert. case_decide; subst; [|done].
    split; eauto.
Qed.

Lemma awaitCompletion_inv (m : Machine) jobID :
  machine_inv m → machine_inv (awaitCompletion m jobID).
Proof.
  intros I.
  destruct (awaitCompletion_cases m jobID) as [[_ ->]|[(job & Hl & Hr) ->]]; [done|].
  destruct I as [I0 Ik Ia Ic Is Hn Hd].
  split; simpl; try done.
  split; [done|]. intros Hc. specialize (Ia _ _ Hl Hr). congruence.
Qed.

(** Two facts on removing one goroutine from the list of sleepers. *)
Lemma elem_of_delete_other {A} (l : list A) (k : nat) (x y : A) :
  l !! k = Some y → x ≠ y → x ∈ delete k l ↔ x ∈ l.
Proof.
  intros Hk Hne. split; [apply list_elem_of_delete_inv|].
  rewrite <-(take_drop_middle l k y Hk) at 1. rewrite delete_take_drop.
  rewrite !elem_of_app, elem_of_cons. intros [?|[?|?]]; [by left|done|by right].
Qed.

Lemma not_elem_of_delete_NoDup {A} (l : list A) (k : nat) (x : A) :
  NoDup l → l !! k = Some x → x ∉ delete k l.
Proof.
  intros Hn Hk. rewrite <-(take_drop_middle l k x Hk) in Hn.
  rewrite delete_take_drop.
  apply NoDup_app in Hn as (_ & Hl & Hr%NoDup_cons).
  rewrite elem_of_app. intros [H|H]; [|by destruct Hr].
  apply (Hl _ H). left.
Qed.

Lemma boot_inv (t0 : Z) : world_inv (boot t0).
Proof.
  split; simpl; try done.
  - apply NewMachine_inv.
  - intros tm ?%elem_of_nil. done.
  - apply NoDup_nil_2.
Qed.

Lemma step_clock (w w' : World) ev o :
  step w ev = Some (w', o) → clock w ≤ clock w'.
Proof.
  destruct ev; simpl.
  - case_bool_decide; [|done]. intros [= <- _]. done.
  - case_bool_decide; [|done]. intros [= <- _]. simpl. lia.
  - destruct (timers w !! k); [|done].
    case_bool_decide; [|done]. intros [= <- _]. simpl. lia.
  - case_bool_decide; [|done]. intros [= <- _]. done.
Qed.

Lemma StartJob_world_inv (w : World) env product jobID :
  world_inv w → clock w ≤ env_now env →
  world_inv {| machine := st_machine (StartJob (machine w) env product jobID);
               timers := timers w
                 ++ option_list (st_timer (StartJob (machine w) env product jobID));
               clock := env_now env |}.
Proof.
  intros I Hc. pose proof (StartJob_inv (machine w) env product jobID
                             (winv_machine _ I)) as IM.
  destruct (StartJob_cases (machine w) env product jobID)
    as [[e He]|(id & _ & Hs & Hne & Hfresh & _ & He)]; rewrite He in IM |- *;
    clear He; destruct I as [_ Ir It Hn Hb Hbl]; simpl in *.
  - rewrite app_nil_r. split; simpl; try done.
    + intros k job r Hk Hr. destruct (Ir _ _ _ Hk Hr). lia.
    + intros (job & Hj & Hle)%Hbl. exists job. split; [done|lia].
  - assert (∀ tm, tm ∈ timers w → timer_job tm ≠ id) as Hold.
    { intros tm (job & Hj & _)%It Heq. congruence. }
    split; simpl; try done.
    + intros k job r. rewrite lookup_insert. case_decide; [by intros [= <-]|].
      intros Hk Hr. destruct (Ir _ _ _ Hk Hr). lia.
    + intros tm [Htm| ->%list_elem_of_singleton]%elem_of_app; simpl.
      * rewrite lookup_insert_ne by (apply not_eq_sym; eauto). eauto.
      * rewrite lookup_insert_eq. eexists. split; [done|]. simpl. lia.
    + rewrite fmap_app. apply NoDup_app. split_and!; [done| |apply NoDup_singleton].
      intros k (tm & -> & Htm)%list_elem_of_fmap ?%list_elem_of_singleton.
      by apply (Hold tm).
    + intros _. split; [|done]. intros _. unfold sleeping. simpl.
      rewrite fmap_app, elem_of_app. right. by left.
Qed.

Lemma RetrieveJob_world_inv (w : World) t1 t2 jobID :
  world_inv w → clock w ≤ t1 → t1 ≤ t2 →
  world_inv {| machine := (RetrieveJob (machine w) t1 t2 jobID).1;
               timers := timers w; clock := t2 |}.
Proof.
  intros I H1 H2. pose proof (RetrieveJob_inv (machine w) t1 t2 jobID
                                (winv_machine _ I)) as IM.
  destruct (RetrieveJob_cases (machine w) t1 t2 jobID)
    as [[e He]|(job & Hl & Hr & Hready & He)]; rewrite He in IM |- *; clear He;
    destruct I as [IM0 Ir It Hn Hb Hbl]; simpl in *.
  - split; simpl; try done.
    + intros k j r Hk Hj. destruct (Ir _ _ _ Hk Hj). lia.
    + intros (j & Hj & Hle)%Hbl. exists j. split; [done|lia].
  - rewrite bool_decide_eq_true_2 in IM |- * by (eapply inv_active; eauto).
    split; simpl; try done.
    + intros k j r. rewrite lookup_insert. case_decide.
      * intros [= <-] [= <-]. simpl. lia.
      * intros Hk Hj. destruct (Ir _ _ _ Hk Hj). lia.
    + intros tm (j & Hj & Hw)%It. rewrite lookup_insert. case_decide; [|eauto].
      eexists. split; [done|]. simpl. congruence.
Qed.

Lemma awaitCompletion_world_inv (w : World) now k tm :
  world_inv w → timers w !! k = Some tm →
  clock w ≤ now ∧ timer_wake tm ≤ now →
  world_inv {| machine := awaitCompletion (machine w) (timer_job tm);
               timers := delete k (timers w); clock := now |}.
Proof.
  intros I Hk [Hc Hwake]. pose proof (awaitCompletion_inv (machine w) (timer_job tm)
                                        (winv_machine _ I)) as IM.
  assert ((timer_job <$> timers w) !! k = Some (timer_job tm)) as Hk'.
  { by rewrite list_lookup_fmap, Hk. }
  destruct I as [IM0 Ir It Hn Hb Hbl].
  destruct (awaitCompletion_cases (machine w) (timer_job tm))
    as [[Hg He]|[(job & Hl & Hr) He]]; rewrite He in IM |- *.
  - split; simpl; try done; [| | | |intros (j & Hj & Hle)%Hbl; exists j; split; [done|lia]].
    + intros id j r Hid Hj. destruct (Ir _ _ _ Hid Hj). lia.
    + intros tm' Htm'%list_elem_of_delete_inv. eauto.
    + rewrite list_fmap_delete. eapply sublist_NoDup; [done|apply sublist_delete].
    + intros Hcur. rewrite (Hb Hcur). unfold sleeping. simpl.
      rewrite list_fmap_delete. symmetry. eapply elem_of_delete_other; [done|].
      intros Heq. apply Hg. rewrite <-Heq. by apply (inv_current _ IM0).
  - assert (currentJob (machine w) = timer_job tm) as Hcur
      by (eapply inv_active; eauto).
    split; simpl; try done.
    + intros id j r Hid Hj. destruct (Ir _ _ _ Hid Hj). lia.
    + intros tm' Htm'%list_elem_of_delete_inv. eauto.
    + rewrite list_fmap_delete. eapply sublist_NoDup; [done|apply sublist_delete].
    + intros _. split; [done|]. unfold sleeping. simpl.
      rewrite list_fmap_delete, Hcur. intros Hin.
      by eapply not_elem_of_delete_NoDup in Hin.
    + intros _. rewrite Hcur. exists job. split; [done|].
      destruct (It tm) as (j & Hj & Hle); [by eapply list_elem_of_lookup_2|].
      assert (j = job) as -> by congruence. lia.
Qed.

Lemma step_inv (w w' : World) ev o :
  world_inv w → step w ev = Some (w', o) → world_inv w'.
Proof.
  intros I. destruct ev; simpl.
  - case_bool_decide; [|done]. intros [= <- _]. by apply StartJob_world_inv.
  - case_bool_decide as H; [|done]. intros [= <- _].
    apply RetrieveJob_world_inv; [done|lia..].
  - destruct (timers w !! k) as [tm|] eqn:Hk; [|done].
    case_bool_decide as H; [|done]. intros [= <- _].
    by apply awaitCompletion_world_inv.
  - case_bool_decide; [|done]. intros [= <- _].
    destruct I as [IM Ir It Hn Hb Hbl]. split; simpl; try done.
    + intros id j r Hid Hj. destruct (Ir _ _ _ Hid Hj). lia.
    + intros (j & Hj & Hle)%Hbl. exists j. split; [done|lia].
Qed.

Lemma reachable_inv (w : World) : reachable w → world_inv w.
Proof.
  induction 1 as [t0|w ev w' o _ IH Hstep]; [apply boot_inv|].
  by eapply step_inv.
Qed.

Lemma run_reachable (w w' : World) evs outs :
  reachable w → run w evs = Some (w', outs) → reachable w'.
Proof.
  revert w outs. induction evs as [|ev evs IH]; intros w outs Hw; simpl.
  - by intros [= <- _].
  - destruct (step w ev) as [[w1 o]|] eqn:Hs; [|done].
    destruct (run w1 evs) as [[w2 os]|] eqn:Hr; [|done].
    intros [= <- _]. eapply IH; [|done]. by eapply reach_step.
Qed.

Lemma after_reachable (t0 : Z) (evs : list Event) : reachable (after t0 evs).
Proof.
  unfold after. destruct (run (boot t0) evs) as [[w outs]|] eqn:Hr.
  - eapply run_reachable; [apply reach_boot|done].
  - apply reach_boot.
Qed.

(** ** History *)

Lemma History_omap (m : Machine) :
  History m = omap (λ id, jobs m !! id) (history m).
Proof.
  unfold History.
  enough (∀ l acc,
    foldl (λ acc id, match jobs m !! id with
                     | Some job => acc ++ [job]
                     | None => acc
                     end) acc l
    = acc ++ omap (λ id, jobs m !! id) l) as H by apply (H _ []).
  induction l as [|id l IH]; intros acc; simpl.
  - by rewrite app_nil_r.
  - rewrite IH. destruct (jobs m !! id); [|done]. by rewrite <-app_assoc.
Qed.

Lemma History_ids (m : Machine) :
  machine_inv m → JobID <$> History m = history m.
Proof.
  intros I. rewrite History_omap.
  assert (∀ id, id ∈ history m → ∃ job, jobs m !! id = Some job ∧ JobID job = id)
    as Hall.
  { intros id [job Hj]%(inv_hist_dom _ I). eauto using inv_key. }
  revert Hall. generalize (history m) as l.
  induction l as [|id l IH]; intros Hall; [done|]. simpl.
  destruct (Hall id) as (job & Hj & Hid); [left|]. rewrite Hj. simpl.
  f_equal; [done|]. apply IH. intros k Hk. apply Hall. by right.
Qed.

Lemma History_snapshots (m : Machine) :
  machine_inv m →
  Forall (λ job, jobs m !! JobID job = Some job) (History m).
Proof.
  intros I. rewrite History_omap. apply Forall_forall.
  intros job (id & _ & Hj)%list_elem_of_omap.
  by rewrite (inv_key _ I _ _ Hj).
Qed.

Lemma step_history (w w' : World) ev o :
  step w ev = Some (w', o) →
  history (machine w') = history (machine w) ++ admitted [ev] [o].
Proof.
  destruct ev as [env p id|t1 t2 id|now k|now]; simpl.
  - case_bool_decide; [|done]. intros [= <- <-]. simpl.
    destruct (StartJob_cases (machine w) env p id)
      as [[e ->]|(id' & _ & _ & _ & _ & _ & ->)]; simpl; [by rewrite app_nil_r|done].
  - case_bool_decide; [|done]. intros [= <- <-]. simpl.
    destruct (RetrieveJob_cases (machine w) t1 t2 id)
      as [[e ->]|(job & _ & _ & _ & ->)]; simpl.
    + by rewrite app_nil_r.
    + rewrite app_nil_r. by case_bool_decide.
  - destruct (timers w !! k) as [tm|]; [|done].
    case_bool_decide; [|done]. intros [= <- <-]. simpl. rewrite app_nil_r.
    by destruct (awaitCompletion_cases (machine w) (timer_job tm)) as [[_ ->]|[_ ->]].
  - case_bool_decide; [|done]. intros [= <- <-]. simpl. by rewrite app_nil_r.
Qed.

Lemma admitted_cons ev o evs outs :
  admitted (ev :: evs) (o :: outs) = admitted [ev] [o] ++ admitted evs outs.
Proof. destruct ev; try done. by destruct o as [[job|e]| |]. Qed.

Lemma run_history (w w' : World) evs outs :
  run w evs = Some (w', outs) →
  history (machine w') = history (machine w) ++ admitted evs outs.
Proof.
  revert w outs. induction evs as [|ev evs IH]; intros w outs Hrun; simpl in Hrun.
  - injection Hrun as <- <-. by rewrite app_nil_r.
  - destruct (step w ev) as [[w1 o]|] eqn:Hs; [|done].
    destruct (run w1 evs) as [[w2 os]|] eqn:Hr; [|done].
    injection Hrun as <- <-. rewrite (IH _ _ Hr), (step_history _ _ _ _ Hs).
    by rewrite (admitted_cons ev o evs os), app_assoc.
Qed.

(** C6: at every point of every schedule, [History()] holds one snapshot per
    successful [StartJob], in admission order: its identifiers are exactly
    those of the admitted jobs in the order of admission, so its length is
    the number of successful admissions; each snapshot is the current record
    of its job, retrieved or not. *)
Theorem history_is_admission_order (t0 : Z) (evs : list Event)
    (w : World) (outs : list Output) :
  run (boot t0) evs = Some (w, outs) →
  JobID <$> History (machine w) = admitted evs outs ∧
  length (History (machine w)) = length (admitted evs outs) ∧
  Forall (λ job, jobs (machine w) !! JobID job = Some job) (History (machine w)).
Proof.
  intros Hrun.
  assert (machine_inv (machine w)) as I.
  { apply winv_machine, reachable_inv.
    eapply run_reachable; [apply reach_boot|done]. }
  assert (JobID <$> History (machine w) = admitted evs outs) as Hids.
  { rewrite (History_ids _ I). by rewrite (run_history _ _ _ _ Hrun). }
  split_and!; [done| |by apply History_snapshots].
  by rewrite <-Hids, length_fmap.
Qed.

Lemma history_is_admission_order_witness :
  JobID <$> History (machine (after 0 blocked_pickup)) = ["job-1"] ∧
  length (History (machine (after 0 blocked_pickup))) = 1%nat.
Proof.
  destruct (history_is_admission_order 0 blocked_pickup
              (after 0 blocked_pickup) (outputs 0 blocked_pickup))
    as (Hids & Hlen & _); [vm_compute; reflexivity|].
  split; [exact Hids|exact Hlen].
Defined.

(** ** Admission *)

(** C5: for every product outside the supported set and every identifier
    argument, [StartJob] fails with [ErrUnsupportedProduct] and changes
    nothing: the machine (state, job set, history) is the one before the
    call and no goroutine is started. *)
Theorem unsupported_product_rejected (m : Machine) (env : StartEnv)
    (product : Product) (jobID : string) :
  product ∉ supportedProducts →
  st_result (StartJob m env product jobID) = Err ErrUnsupportedProduct ∧
  st_machine (StartJob m env product jobID) = m ∧
  st_timer (StartJob m env product jobID) = None ∧
  Status (st_machine (StartJob m env product jobID)) = Status m ∧
  jobs (st_machine (StartJob m env product jobID)) = jobs m ∧
  length (History (st_machine (StartJob m env product jobID)))
    = length (History m).
Proof.
  intros Hp. unfold StartJob. rewrite (valid_false _ Hp). simpl. done.
Qed.

Lemma unsupported_product_rejected_witness :
  st_result (StartJob (machine (after 0 brew_job1)) job1_env "INVALID" "")
    = Err ErrUnsupportedProduct ∧
  st_machine (StartJob (machine (after 0 brew_job1)) job1_env "INVALID" "")
    = machine (after 0 brew_job1).
Proof.
  destruct (unsupported_product_rejected (machine (after 0 brew_job1))
              job1_env "INVALID" "") as (Hr & Hm & _).
  - apply (bool_decide_eq_false_1 _). vm_compute. reflexivity.
  - split; [exact Hr|exact Hm].
Defined.

(** C8: when [crand.Read] fails while [StartJob] generates the identifier
    (supported product, available machine, no identifier supplied), the call
    returns that failure, wrapped, as its error; the machine is unchanged, no
    job is recorded and no goroutine is started: there is no second way of
    making an identifier. *)
Theorem entropy_failure_reported (m : Machine) (env : StartEnv)
    (product : Product) (cause : string) :
  valid product = true →
  state m = StateAvailable →
  env_entropy env = EntropyFail cause →
  st_result (StartJob m env product "") = Err (ErrGenerateJobID cause) ∧
  st_machine (StartJob m env product "") = m ∧
  st_timer (StartJob m env product "") = None ∧
  History (st_machine (StartJob m env product "")) = History m.
Proof.
  intros Hv Hs He. unfold StartJob. rewrite Hv, He. simpl.
  rewrite bool_decide_eq_true_2 by done. simpl. done.
Qed.

Lemma entropy_failure_reported_witness :
  st_result (StartJob NewMachine
               {| env_now := 0; env_entropy := EntropyFail "EAGAIN";
                  env_brew := 10 |} ProductEspresso "")
    = Err (ErrGenerateJobID "EAGAIN").
Proof.
  apply (entropy_failure_reported NewMachine
           {| env_now := 0; env_entropy := EntropyFail "EAGAIN"; env_brew := 10 |}
           ProductEspresso "EAGAIN"); reflexivity.
Defined.

(** ** Retrieval *)

(** C9: in every reachable state, a job whose [JobRetrieved] is set was
    retrieved no earlier than its [JobReady]; the same holds of every
    snapshot [History()] returns. *)
Theorem retrieved_after_ready (w : World) (jobID : string) (job : Job) (r : Z) :
  reachable w →
  jobs (machine w) !! jobID = Some job →
  JobRetrieved job = Some r →
  JobReady job ≤ r ∧
  Forall (λ j, ∀ r', JobRetrieved j = Some r' → JobReady j ≤ r')
         (History (machine w)).
Proof.
  intros I%reachable_inv Hj Hr. split.
  - by destruct (winv_retrieved _ I _ _ _ Hj Hr).
  - eapply Forall_impl; [apply History_snapshots, I|].
    intros j Hl r' Hr'. by destruct (winv_retrieved _ I _ _ _ Hl Hr').
Qed.

Lemma retrieved_after_ready_witness :
  jobs (machine (after 0 blocked_pickup)) !! "job-1"
    = Some {| JobID := "job-1"; JobProduct := ProductKakao; JobStarted := 0;
              JobReady := 10; JobRetrieved := Some 16 |} ∧
  10 ≤ 16.
Proof.
  assert (jobs (machine (after 0 blocked_pickup)) !! "job-1"
    = Some {| JobID := "job-1"; JobProduct := ProductKakao; JobStarted := 0;
              JobReady := 10; JobRetrieved := Some 16 |}) as Hj
    by (vm_compute; reflexivity).
  split; [exact Hj|].
  exact (proj1 (retrieved_after_ready (after 0 blocked_pickup) "job-1" _ 16
                  (after_reachable 0 blocked_pickup) Hj eq_refl)).
Defined.

(** A retrieved record is never touched again: whatever happens next, the
    job set holds the very same record under the same identifier. *)
Lemma step_keeps_retrieved (w w' : World) ev o jobID job r :
  step w ev = Some (w', o) →
  jobs (machine w) !! jobID = Some job → JobRetrieved job = Some r →
  jobs (machine w') !! jobID = Some job.
Proof.
  intros Hstep Hj Hr. destruct ev as [env p id|t1 t2 id|now k|now]; simpl in Hstep.
  - case_bool_decide; [|done]. injection Hstep as <- _. simpl.
    destruct (StartJob_cases (machine w) env p id)
      as [[e ->]|(id' & _ & _ & _ & Hfresh & _ & ->)]; simpl; [done|].
    rewrite lookup_insert_ne; [done|congruence].
  - case_bool_decide; [|done]. injection Hstep as <- _. simpl.
    destruct (RetrieveJob_cases (machine w) t1 t2 id)
      as [[e ->]|(j & Hl & Hn & _ & ->)]; simpl; [done|].
    assert (id ≠ jobID) by congruence.
    case_bool_decide; simpl; by rewrite lookup_insert_ne.
  - destruct (timers w !! k) as [tm|]; [|done].
    case_bool_decide; [|done]. injection Hstep as <- _. simpl.
    by destruct (awaitCompletion_cases (machine w) (timer_job tm)) as [[_ ->]|[_ ->]].
  - case_bool_decide; [|done]. by injection Hstep as <- _.
Qed.

Lemma run_keeps_retrieved (w w' : World) evs outs jobID job r :
  run w evs = Some (w', outs) →
  jobs (machine w) !! jobID = Some job → JobRetrieved job = Some r →
  jobs (machine w') !! jobID = Some job.
Proof.
  revert w outs. induction evs as [|ev evs IH]; intros w outs Hrun Hj Hr;
    simpl in Hrun.
  - by injection Hrun as <- _.
  - destruct (step w ev) as [[w1 o]|] eqn:Hs; [|done].
    destruct (run w1 evs) as [[w2 os]|] eqn:Hrest; [|done].
    injection Hrun as <- _. eapply IH; [done| |done].
    by eapply step_keeps_retrieved.
Qed.

Lemma RetrieveJob_retrieved (m : Machine) t1 t2 jobID job r :
  jobs m !! jobID = Some job → JobRetrieved job = Some r →
  RetrieveJob m t1 t2 jobID = (m, Err ErrJobAlreadyRetrieved).
Proof. intros Hj Hr. unfold RetrieveJob. by rewrite Hj, Hr. Qed.

Lemma awaitCompletion_retrieved (m : Machine) jobID job r :
  jobs m !! jobID = Some job → JobRetrieved job = Some r →
  awaitCompletion m jobID = m.
Proof. intros Hj Hr. unfold awaitCompletion. by rewrite Hj, Hr. Qed.

(** C3: for a job of the job set of a reachable world,
    - every [RetrieveJob] whose clock reading is strictly before [JobReady]
      fails with [ErrJobNotReady] and changes nothing;
    - while the job is unretrieved, a [RetrieveJob] whose reading is at or
      after [JobReady] succeeds and stamps the record;
    - once the job is retrieved, every later [RetrieveJob] of its identifier,
      after any further schedule, fails with [ErrJobAlreadyRetrieved]. *)
Theorem retrieve_protocol (w : World) (jobID : string) (job : Job) :
  reachable w →
  jobs (machine w) !! jobID = Some job →
  (∀ t1 t2, clock w ≤ t1 → t1 < JobReady job →
     RetrieveJob (machine w) t1 t2 jobID = (machine w, Err ErrJobNotReady)) ∧
  (JobRetrieved job = None → ∀ t1 t2, JobReady job ≤ t1 →
     (RetrieveJob (machine w) t1 t2 jobID).2 = Ok (set_retrieved job t2) ∧
     jobs (RetrieveJob (machine w) t1 t2 jobID).1 !! jobID
       = Some (set_retrieved job t2)) ∧
  (∀ r, JobRetrieved job = Some r →
     ∀ evs w' outs, run w evs = Some (w', outs) →
     ∀ t1 t2, RetrieveJob (machine w') t1 t2 jobID
              = (machine w', Err ErrJobAlreadyRetrieved)).
Proof.
  intros I%reachable_inv Hj. split_and!.
  - intros t1 t2 Hc Hlt. unfold RetrieveJob. rewrite Hj.
    destruct (JobRetrieved job) as [r|] eqn:Hr.
    + destruct (winv_retrieved _ I _ _ _ Hj Hr). lia.
    + by rewrite (proj2 (Z.ltb_lt _ _) Hlt).
  - intros Hr t1 t2 Hge. unfold RetrieveJob. rewrite Hj, Hr.
    rewrite (proj2 (Z.ltb_ge _ _) Hge).
    case_bool_decide; simpl; by rewrite lookup_insert_eq.
  - intros r Hr evs w' outs Hrun t1 t2.
    eapply RetrieveJob_retrieved; [|done]. by eapply run_keeps_retrieved.
Qed.

Lemma retrieve_protocol_witness :
  RetrieveJob (machine (after 0 brew_job1)) 5 5 "job-1"
    = (machine (after 0 brew_job1), Err ErrJobNotReady).
Proof.
  refine (proj1 (retrieve_protocol (after 0 brew_job1) "job-1"
                   {| JobID := "job-1"; JobProduct := ProductKakao;
                      JobStarted := 0; JobReady := 10; JobRetrieved := None |}
                   (after_reachable 0 brew_job1) _) 5 5 _ _).
  - vm_compute. reflexivity.
  - vm_compute. discriminate.
  - reflexivity.
Defined.

(** C2: when the active job is retrieved (which [RetrieveJob] allows only
    at or after [JobReady]), the machine is available again, and from then
    on, after any further schedule, the critical section of that job's
    goroutine leaves the machine exactly as it finds it: a goroutine that
    wakes after the retrieval changes neither [state] nor anything else. *)
Theorem stale_timer_is_inert (w w' : World) (t1 t2 : Z) (jobID : string)
    (job : Job) :
  currentJob (machine w) = jobID →
  step w (EvRetrieveJob t1 t2 jobID) = Some (w', OutJob (Ok job)) →
  Status (machine w') = StateAvailable ∧
  ∀ evs w'' outs, run w' evs = Some (w'', outs) →
    awaitCompletion (machine w'') jobID = machine w'' ∧
    ∀ now k tm w3 o,
      timers w'' !! k = Some tm → timer_job tm = jobID →
      step w'' (EvAwaitCompletion now k) = Some (w3, o) →
      machine w3 = machine w''.
Proof.
  intros Hcur Hstep. simpl in Hstep.
  case_bool_decide; [|done]. injection Hstep as <- Hout.
  destruct (RetrieveJob_cases (machine w) t1 t2 jobID)
    as [[e He]|(j & Hj & Hr & _ & He)]; rewrite He in Hout |- *; [done|].
  clear He Hout. rewrite bool_decide_eq_true_2 by done. simpl. split; [done|].
  intros evs w'' outs Hrun.
  assert (jobs (machine w'') !! jobID = Some (set_retrieved j t2)) as Hj''.
  { eapply run_keeps_retrieved; [done| |done]. simpl. by rewrite lookup_insert_eq. }
  assert (awaitCompletion (machine w'') jobID = machine w'') as Hnoop
    by (by eapply awaitCompletion_retrieved).
  split; [done|].
  intros now k tm w3 o Hk Htm. simpl. rewrite Hk.
  case_bool_decide; [|done]. intros [= <- _]. simpl. by rewrite Htm.
Qed.

Lemma stale_timer_is_inert_witness :
  Status (machine (after 0 (brew_job1 ++ [EvRetrieveJob 12 12 "job-1"])))
    = StateAvailable.
Proof.
  refine (proj1 (stale_timer_is_inert (after 0 brew_job1)
                   (after 0 (brew_job1 ++ [EvRetrieveJob 12 12 "job-1"]))
                   12 12 "job-1"
                   {| JobID := "job-1"; JobProduct := ProductKakao;
                      JobStarted := 0; JobReady := 10; JobRetrieved := Some 12 |}
                   _ _)).
  - vm_compute. reflexivity.
  - vm_compute. reflexivity.
Defined.

(** ** The active job *)

(** C10: in every reachable world, every job of the job set other than
    [currentJob] has [JobRetrieved] set; hence, for a job of the job set
    (in particular for the job of any goroutine still asleep), the guard of
    [awaitCompletion] (the job exists and is not yet retrieved) holds exactly
    when that job is [currentJob], and [awaitCompletion] does what the
    design's active-job check does. *)
Theorem unretrieved_is_active (w : World) :
  reachable w →
  (∀ jobID job, jobs (machine w) !! jobID = Some job →
     jobID ≠ currentJob (machine w) → JobRetrieved job ≠ None) ∧
  (∀ jobID, is_Some (jobs (machine w) !! jobID) →
     (unretrieved (machine w) jobID ↔ currentJob (machine w) = jobID) ∧
     awaitCompletion (machine w) jobID
       = awaitCompletion_design (machine w) jobID) ∧
  (∀ tm, tm ∈ timers w →
     (unretrieved (machine w) (timer_job tm)
        ↔ currentJob (machine w) = timer_job tm) ∧
     awaitCompletion (machine w) (timer_job tm)
       = awaitCompletion_design (machine w) (timer_job tm)).
Proof.
  intros I%reachable_inv. pose proof (winv_machine _ I) as IM.
  assert (∀ jobID, is_Some (jobs (machine w) !! jobID) →
     (unretrieved (machine w) jobID ↔ currentJob (machine w) = jobID) ∧
     awaitCompletion (machine w) jobID
       = awaitCompletion_design (machine w) jobID) as Hguard.
  { intros jobID [job Hj].
    assert (unretrieved (machine w) jobID ↔ currentJob (machine w) = jobID) as Hiff.
    { split.
      - intros (j & Hl & Hr). by eapply inv_active.
      - intros Hcur. rewrite <-Hcur. apply (inv_current _ IM).
        rewrite Hcur. intros ->. by rewrite (inv_no_empty _ IM) in Hj. }
    split; [done|]. unfold awaitCompletion_design.
    destruct (awaitCompletion_cases (machine w) jobID) as [[Hg ->]|[Hg ->]].
    - rewrite bool_decide_eq_false_2; [done|]. by rewrite <-Hiff.
    - rewrite bool_decide_eq_true_2; [done|]. by rewrite <-Hiff. }
  split_and!; [|done|].
  - intros jobID job Hj Hne Hr. apply Hne. symmetry. by eapply inv_active.
  - intros tm (job & Hj & _)%(winv_timer_job _ I). apply Hguard. eauto.
Qed.

Lemma unretrieved_is_active_witness :
  unretrieved (machine (after 0 brew_job1)) "job-1"
    ↔ currentJob (machine (after 0 brew_job1)) = "job-1".
Proof.
  refine (proj1 (proj1 (proj2 (unretrieved_is_active (after 0 brew_job1)
                                 (after_reachable 0 brew_job1)))
                   "job-1" _)).
  vm_compute. eexists. reflexivity.
Defined.

(** ** The three ways [StartJob] goes for a supported product *)

Lemma StartJob_busy (m : Machine) env product jobID :
  valid product = true → state m ≠ StateAvailable →
  StartJob m env product jobID = refuse m ErrMachineBusy.
Proof.
  intros Hv Hs. unfold StartJob. rewrite Hv. simpl.
  by rewrite bool_decide_eq_false_2.
Qed.

Lemma StartJob_conflict (m : Machine) env product jobID :
  valid product = true → state m = StateAvailable → jobID ≠ "" →
  is_Some (jobs m !! jobID) →
  StartJob m env product jobID = refuse m ErrJobIDExists.
Proof.
  intros Hv Hs Hne [job Hj]. unfold StartJob. rewrite Hv. simpl.
  rewrite bool_decide_eq_true_2 by done. simpl.
  rewrite bool_decide_eq_false_2 by done. by rewrite Hj.
Qed.

Lemma StartJob_admits (m : Machine) env product jobID :
  valid product = true → state m = StateAvailable → jobID ≠ "" →
  jobs m !! jobID = None →
  let job := {| JobID := jobID; JobProduct := product;
                JobStarted := env_now env;
                JobReady := env_now env + env_brew env;
                JobRetrieved := None |} in
  StartJob m env product jobID =
    {| st_machine :=
         {| state := StateBrewing; jobs := <[jobID := job]> (jobs m);
            history := history m ++ [jobID]; currentJob := jobID |};
       st_timer :=
         Some {| timer_job := jobID;
                 timer_wake := env_now env + Z.max 0 (env_brew env) |};
       st_result := Ok job |}.
Proof.
  intros Hv Hs Hne Hj. unfold StartJob. rewrite Hv. simpl.
  rewrite bool_decide_eq_true_2 by done. simpl.
  rewrite bool_decide_eq_false_2 by done. by rewrite Hj.
Qed.

(** C4, as the machine has it: [StartJob(KAKAO, "job-1")] on a new machine
    succeeds, and a second [StartJob(KAKAO, "job-1")] right after it fails
    with [ErrMachineBusy], because the state check comes before the
    identifier check; so it does once the goroutine has blocked the machine.
    [ErrJobIDExists] is what the second call returns once the first job has
    been retrieved and the machine is available again. *)
Theorem duplicate_start_is_busy (env1 env2 : StartEnv) :
  let first := StartJob NewMachine env1 ProductKakao "job-1" in
  let ready := env_now env1 + env_brew env1 in
  is_ok (st_result first) = true ∧
  st_result (StartJob (st_machine first) env2 ProductKakao "job-1")
    = Err ErrMachineBusy ∧
  st_result (StartJob (awaitCompletion (st_machine first) "job-1")
               env2 ProductKakao "job-1")
    = Err ErrMachineBusy ∧
  st_result (StartJob (RetrieveJob (st_machine first) ready ready "job-1").1
               env2 ProductKakao "job-1")
    = Err ErrJobIDExists.
Proof.
  assert (valid ProductKakao = true) as Hv by (vm_compute; reflexivity).
  intros first ready. subst first.
  rewrite (StartJob_admits NewMachine env1 ProductKakao "job-1") by done.
  simpl. split_and!.
  - done.
  - by rewrite StartJob_busy.
  - unfold awaitCompletion. simpl. rewrite lookup_insert_eq. simpl.
    by rewrite StartJob_busy.
  - unfold RetrieveJob. simpl. rewrite lookup_insert_eq. simpl.
    subst ready. rewrite Z.ltb_irrefl. simpl.
    rewrite StartJob_conflict; [done..|]. simpl.
    rewrite lookup_insert_eq. eauto.
Qed.

(** The reading of C4 with [ErrJobIDExists] for the immediate second call
    fails on the machine: the call returns [ErrMachineBusy]. *)
Lemma duplicate_start_not_conflict : ¬ duplicate_reports_conflict.
Proof.
  intros H. specialize (H job1_env job1_env). simpl in H.
  assert (valid ProductKakao = true) as Hv by (vm_compute; reflexivity).
  rewrite (StartJob_admits NewMachine job1_env ProductKakao "job-1") in H by done.
  simpl in H. rewrite StartJob_busy in H by done.
  specialize (H eq_refl). discriminate H.
Qed.

(** ** The busy span of a job *)

(** C1, as the machine has it: while a job of a reachable world is
    unretrieved,
    - [Status()] is [StateBrewing] as long as the job's goroutine is asleep,
      which includes every instant before [JobReady], and [StateBlocked]
      once the goroutine has run, which is never before [JobReady];
    - the goroutine's critical section, whenever it runs, is at or after
      [JobReady] and leaves the machine blocked;
    - every [StartJob] of a supported product fails with [ErrMachineBusy]
      and changes nothing;
    - a [RetrieveJob] of the job at or after [JobReady] succeeds and makes
      the machine available, from either state. *)
Theorem busy_span (w : World) (jobID : string) (job : Job) :
  reachable w →
  jobs (machine w) !! jobID = Some job →
  JobRetrieved job = None →
  (Status (machine w) = StateBrewing ∧ sleeping w jobID ∨
   Status (machine w) = StateBlocked ∧ ¬ sleeping w jobID ∧
     JobReady job ≤ clock w) ∧
  (clock w < JobReady job → Status (machine w) = StateBrewing) ∧
  (∀ now k tm w' o,
     timers w !! k = Some tm → timer_job tm = jobID →
     step w (EvAwaitCompletion now k) = Some (w', o) →
     JobReady job ≤ now ∧ Status (machine w') = StateBlocked) ∧
  (∀ env product id, valid product = true →
     StartJob (machine w) env product id = refuse (machine w) ErrMachineBusy) ∧
  (∀ t1 t2, JobReady job ≤ t1 →
     (RetrieveJob (machine w) t1 t2 jobID).2 = Ok (set_retrieved job t2) ∧
     Status (RetrieveJob (machine w) t1 t2 jobID).1 = StateAvailable).
Proof.
  intros I%reachable_inv Hj Hr. pose proof (winv_machine _ I) as IM.
  assert (currentJob (machine w) = jobID) as Hcur by (by eapply inv_active).
  assert (jobID ≠ "") as Hne.
  { intros ->. by rewrite (inv_no_empty _ IM) in Hj. }
  assert (state (machine w) ≠ StateAvailable) as Hbusy.
  { intros Hs%(inv_state _ IM). congruence. }
  assert (Status (machine w) = StateBrewing ∧ sleeping w jobID ∨
          Status (machine w) = StateBlocked ∧ ¬ sleeping w jobID ∧
            JobReady job ≤ clock w) as Hspan.
  { pose proof (winv_brewing _ I) as Hb. rewrite Hcur in Hb.
    specialize (Hb Hne). unfold Status.
    destruct (state (machine w)) eqn:Hs; [done|left|right].
    - split; [done|]. by apply Hb.
    - destruct (winv_blocked _ I Hs) as (j & Hl & Hle).
      rewrite Hcur in Hl. assert (j = job) as -> by congruence.
      split_and!; [done| |done]. intros Hsl%Hb. discriminate Hsl. }
  split_and!; [done| | | |].
  - intros Hlt. destruct Hspan as [[? _]|(_ & _ & ?)]; [done|lia].
  - intros now k tm w' o Hk Htm. simpl. rewrite Hk.
    case_bool_decide as Hen; [|done]. intros [= <- _]. simpl.
    destruct (winv_timer_job _ I tm) as (j & Hl & Hle);
      [by eapply list_elem_of_lookup_2|].
    rewrite Htm in Hl |- *. assert (j = job) as -> by congruence.
    split; [lia|]. unfold awaitCompletion. by rewrite Hj, Hr.
  - intros env product id Hv. by apply StartJob_busy.
  - intros t1 t2 Hge. unfold RetrieveJob. rewrite Hj, Hr.
    rewrite (proj2 (Z.ltb_ge _ _) Hge).
    by rewrite bool_decide_eq_true_2.
Qed.

Lemma busy_span_witness :
  Status (machine (after 0 brew_job1)) = StateBrewing ∧
  StartJob (machine (after 0 brew_job1)) job1_env ProductEspresso ""
    = refuse (machine (after 0 brew_job1)) ErrMachineBusy.
Proof.
  destruct (busy_span (after 0 brew_job1) "job-1"
              {| JobID := "job-1"; JobProduct := ProductKakao;
                 JobStarted := 0; JobReady := 10; JobRetrieved := None |}
              (after_reachable 0 brew_job1))
    as (_ & Hbrew & _ & Hbusy & _).
  - vm_compute. reflexivity.
  - reflexivity.
  - split.
    + apply Hbrew. reflexivity.
    + apply Hbusy. vm_compute. reflexivity.
Defined.

(** The readings of C1 that fail on the machine.  After [brew_job1] and a
    [Status()] call at 12, the ready instant 10 has passed and the job is
    unretrieved, yet the machine is brewing, not blocked: the goroutine has
    not run yet.  And in that busy world a [StartJob] of an unsupported
    product fails with [ErrUnsupportedProduct], not [ErrMachineBusy]. *)
Lemma status_lags_ready_at :
  ¬ blocked_from_ready_at ∧ ¬ busy_for_every_admit.
Proof.
  pose (w := after 0 (brew_job1 ++ [EvStatus 12])).
  assert (reachable w) as Hw by apply after_reachable.
  split.
  - intros H.
    specialize (H w "job-1"
                  {| JobID := "job-1"; JobProduct := ProductKakao;
                     JobStarted := 0; JobReady := 10; JobRetrieved := None |} Hw).
    assert (Status (machine w) = StateBlocked) as Hs.
    { apply H; [vm_compute; reflexivity|reflexivity|vm_compute; discriminate]. }
    vm_compute in Hs. discriminate Hs.
  - intros H. specialize (H w job1_env "INVALID" "" Hw).
    assert (st_result (StartJob (machine w) job1_env "INVALID" "")
            = Err ErrMachineBusy) as Hs.
    { apply H. vm_compute. discriminate. }
    vm_compute in Hs. discriminate Hs.
Qed.

(** ** Generated identifiers *)

(** C7, as the machine has it: when [StartJob] is called with no
    identifier (supported product, available machine) and [crand.Read]
    delivers its bytes, the identifier is those bytes with the version and
    variant bits fixed, printed as a version-4 identifier.  If no job carries
    it, the job is admitted under it; if a job does, the call fails with
    [ErrJobIDExists] and changes nothing.  So every job admitted without a
    supplied identifier carries a well-formed version-4 identifier that no
    job carried before. *)
Theorem generated_identifier (m : Machine) (env : StartEnv)
    (product : Product) (bs : list byte) :
  valid product = true →
  state m = StateAvailable →
  env_entropy env = EntropyBytes bs →
  generateJobID (env_entropy env) = Ok (format_uuid bs) ∧
  is_uuid4 (format_uuid bs) = true ∧
  (jobs m !! format_uuid bs = None →
     ∃ job, st_result (StartJob m env product "") = Ok job ∧
            JobID job = format_uuid bs ∧
            jobs (st_machine (StartJob m env product "")) !! format_uuid bs
              = Some job) ∧
  (is_Some (jobs m !! format_uuid bs) →
     StartJob m env product "" = refuse m ErrJobIDExists) ∧
  (∀ job, st_result (StartJob m env product "") = Ok job →
     is_uuid4 (JobID job) = true ∧ jobs m !! JobID job = None).
Proof.
  intros Hv Hs He.
  assert (StartJob m env product "" = StartJob m env product (format_uuid bs))
    as Hgen.
  { unfold StartJob. rewrite Hv, He. simpl.
    rewrite bool_decide_eq_true_2 by done. simpl.
    destruct (bool_decide (format_uuid bs = "")) eqn:Hemp; [|done].
    apply bool_decide_eq_true_1 in Hemp. by apply format_uuid_nonempty in Hemp. }
  rewrite Hgen, He. split_and!.
  - done.
  - apply format_uuid_is_uuid4.
  - intros Hfresh.
    rewrite StartJob_admits by (done || apply format_uuid_nonempty). simpl.
    eexists. split_and!; [done|done|]. simpl. apply lookup_insert_eq.
  - intros Hused. apply StartJob_conflict; done || apply format_uuid_nonempty.
  - intros job. destruct (jobs m !! format_uuid bs) eqn:Hl.
    + rewrite StartJob_conflict; [done|done|done|apply format_uuid_nonempty|eauto].
    + rewrite StartJob_admits by (done || apply format_uuid_nonempty). simpl.
      intros [= <-]. simpl. split; [apply format_uuid_is_uuid4|done].
Qed.

Lemma generated_identifier_witness :
  is_uuid4 (format_uuid (replicate 16 xff)) = true ∧
  StartJob (machine (after 0 uuid_taken)) job1_env ProductKakao ""
    = refuse (machine (after 0 uuid_taken)) ErrJobIDExists.
Proof.
  destruct (generated_identifier (machine (after 0 uuid_taken)) job1_env
              ProductKakao (replicate 16 x00)) as (_ & _ & _ & Hused & _);
    [vm_compute; reflexivity..|].
  destruct (generated_identifier NewMachine
              {| env_now := 0; env_entropy := EntropyBytes (replicate 16 xff);
                 env_brew := 10 |}
              ProductKakao (replicate 16 xff)) as (_ & Hfmt & _);
    [vm_compute; reflexivity..|].
  split; [exact Hfmt|]. apply Hused. vm_compute. eexists. reflexivity.
Defined.

(** The reading of C7 in which generation alone guarantees freshness fails:
    after [uuid_taken] the machine is available and a job carries
    [zero_uuid]; sixteen zero bytes of entropy generate that very
    identifier. *)
Lemma generated_identifier_may_be_taken : ¬ generated_always_unused.
Proof.
  intros H.
  specialize (H (after 0 uuid_taken) job1_env ProductKakao zero_uuid
                (after_reachable 0 uuid_taken)).
  assert (jobs (machine (after 0 uuid_taken)) !! zero_uuid = None) as Hfree.
  { apply H; vm_compute; reflexivity. }
  vm_compute in Hfree. discriminate Hfree.
Qed.

(** * The handler-level machine: the same facts where it shares them *)

Lemma handlers_StartJob_cases (m : Handlers.Machine) now fresh r :
  (∃ msg code, Handlers.StartJob m now fresh r = Handlers.reject m msg code) ∨
  (∃ job,
      Handlers.state m = StateAvailable ∧ JobRetrieved job = None ∧
      JobReady job = now + Handlers.brewDuration ∧
      Handlers.StartJob m now fresh r =
        {| Handlers.st_machine :=
             {| Handlers.state := StateBrewing;
                Handlers.currentJob := Some (length (Handlers.history m));
                Handlers.jobs :=
                  <[JobID job := length (Handlers.history m)]> (Handlers.jobs m);
                Handlers.history := Handlers.history m ++ [job] |};
           Handlers.st_sleeper :=
             Some {| Handlers.sl_job := length (Handlers.history m);
                     Handlers.sl_wake := now + Handlers.brewDuration |};
           Handlers.st_response := Handlers.Encoded job |}).
Proof.
  unfold Handlers.StartJob.
  case_bool_decide; simpl; [|left; eauto].
  destruct (Handlers.req_body r) as [[product reqJobID]|]; [|left; eauto].
  destruct (Handlers.supported product); simpl; [|left; eauto].
  case_bool_decide; simpl; [|left; eauto].
  right.
  exists {| JobID := if bool_decide (reqJobID = "") then fresh else reqJobID;
            JobProduct := product; JobStarted := now;
            JobReady := now + Handlers.brewDuration; JobRetrieved := None |}.
  done.
Qed.

Lemma handlers_RetrieveJob_cases (m : Handlers.Machine) t1 t2 jobID :
  (∃ msg code, Handlers.RetrieveJob m t1 t2 jobID = (m, Handlers.Failure msg code)) ∨
  (∃ p job,
      Handlers.jobs m !! jobID = Some p ∧ Handlers.history m !! p = Some job ∧
      JobRetrieved job = None ∧ JobReady job ≤ t1 ∧
      Handlers.history (Handlers.RetrieveJob m t1 t2 jobID).1
        = <[p := set_retrieved job t2]> (Handlers.history m) ∧
      Handlers.jobs (Handlers.RetrieveJob m t1 t2 jobID).1 = Handlers.jobs m ∧
      (Handlers.currentJob (Handlers.RetrieveJob m t1 t2 jobID).1 = None ∨
       Handlers.currentJob (Handlers.RetrieveJob m t1 t2 jobID).1
         = Handlers.currentJob m ∧ Handlers.currentJob m ≠ Some p)).
Proof.
  unfold Handlers.RetrieveJob.
  case_bool_decide; [left; eauto|].
  destruct (Handlers.jobs m !! jobID) as [p|] eqn:Hp; [|left; eauto].
  destruct (Handlers.history m !! p) as [job|] eqn:Hj; [|left; eauto].
  destruct (JobRetrieved job) eqn:Hr; [left; eauto|].
  destruct (Z.ltb_spec t1 (JobReady job)); [left; eauto|].
  right. exists p, job. case_bool_decide; simpl; split_and!; auto.
Qed.

Lemma handlers_step_inv (w w' : Handlers.World) ev o :
  Handlers.world_inv w → Handlers.step w ev = Some (w', o) →
  Handlers.world_inv w'.
Proof.
  intros [Ic Ip Ir] Hstep.
  destruct ev as [now fresh r|t1 t2 jobID|now k]; simpl in Hstep.
  - case_bool_decide; [|done]. injection Hstep as <- _.
    destruct (handlers_StartJob_cases (Handlers.machine w) now fresh r)
      as [(msg & code & ->)|(job & _ & Hr & _ & ->)]; [by split|].
    split; simpl.
    + intros p [= <-]. exists job. by rewrite lookup_app_r, Nat.sub_diag.
    + intros id p. rewrite lookup_insert. case_decide.
      * intros [= <-]. rewrite lookup_app_r, Nat.sub_diag; [eauto|done].
      * intros [j Hj]%Ip. exists j. by apply lookup_app_l_Some.
    + intros p j r' [Hj|[_ Hj]]%lookup_app_Some; [eauto|].
      apply list_lookup_singleton_Some in Hj as [_ <-]. congruence.
  - case_bool_decide; [|done]. injection Hstep as <- _.
    destruct (handlers_RetrieveJob_cases (Handlers.machine w) t1 t2 jobID)
      as [(msg & code & ->)|(p & job & Hp & Hj & Hr & Hge & Hh & Hjobs & Hcur)];
      [by split|].
    assert (p < length (Handlers.history (Handlers.machine w)))%nat as Hlt
      by (by eapply lookup_lt_Some).
    split; simpl; rewrite ?Hh, ?Hjobs.
    + intros q Hq. destruct Hcur as [Hn|[Heq Hne]]; [congruence|].
      rewrite Heq in Hq. rewrite list_lookup_insert_ne by congruence. eauto.
    + intros id q [j Hq]%Ip.
      destruct (decide (p = q)) as [<-|Hne].
      * rewrite list_lookup_insert_eq; eauto.
      * rewrite list_lookup_insert_ne; eauto.
    + intros q j r'. destruct (decide (p = q)) as [<-|Hne].
      * rewrite list_lookup_insert_eq by done. intros [= <-] [= <-]. simpl. lia.
      * rewrite list_lookup_insert_ne by done. eauto.
  - destruct (Handlers.sleepers w !! k) as [sl|]; [|done].
    case_bool_decide; [|done]. injection Hstep as <- _.
    unfold Handlers.wake. case_bool_decide; by split.
Qed.

Lemma handlers_reachable_inv (w : Handlers.World) :
  Handlers.reachable w → Handlers.world_inv w.
Proof.
  induction 1 as [t0|w ev w' o _ IH Hstep]; [|by eapply handlers_step_inv].
  split; simpl; [done| |]; intros ???; by rewrite ?lookup_empty, ?lookup_nil.
Qed.

(** A retrieved record stays as it is, at its position, whatever follows. *)
Lemma handlers_step_keeps_retrieved (w w' : Handlers.World) ev o p job r :
  Handlers.step w ev = Some (w', o) →
  Handlers.history (Handlers.machine w) !! p = Some job →
  JobRetrieved job = Some r →
  Handlers.history (Handlers.machine w') !! p = Some job.
Proof.
  intros Hstep Hj Hr.
  destruct ev as [now fresh rq|t1 t2 jobID|now k]; simpl in Hstep.
  - case_bool_decide; [|done]. injection Hstep as <- _.
    destruct (handlers_StartJob_cases (Handlers.machine w) now fresh rq)
      as [(msg & code & ->)|(j & _ & _ & _ & ->)]; [done|]. simpl.
    by apply lookup_app_l_Some.
  - case_bool_decide; [|done]. injection Hstep as <- _.
    destruct (handlers_RetrieveJob_cases (Handlers.machine w) t1 t2 jobID)
      as [(msg & code & ->)|(q & j & _ & Hq & Hn & _ & Hh & _)]; [done|].
    simpl. rewrite Hh. rewrite list_lookup_insert_ne; [done|]. congruence.
  - destruct (Handlers.sleepers w !! k) as [sl|]; [|done].
    case_bool_decide; [|done]. injection Hstep as <- _.
    unfold Handlers.wake. by case_bool_decide.
Qed.

(** The goroutine of a retrieved job finds another pointer, or none, in
    [currentJob] and changes nothing (the situation of C2). *)
Lemma handlers_stale_goroutine_is_inert (w : Handlers.World) p job r :
  Handlers.reachable w →
  Handlers.history (Handlers.machine w) !! p = Some job →
  JobRetrieved job = Some r →
  Handlers.wake (Handlers.machine w) p = Handlers.machine w.
Proof.
  intros I%handlers_reachable_inv Hj Hr. unfold Handlers.wake.
  case_bool_decide as Hcur; [|done].
  destruct (Handlers.winv_current _ I _ Hcur) as (j & Hl & Hn). congruence.
Qed.

(** Retrieval is never stamped before the ready instant (C9). *)
Lemma handlers_retrieved_after_ready (w : Handlers.World) p job r :
  Handlers.reachable w →
  Handlers.history (Handlers.machine w) !! p = Some job →
  JobRetrieved job = Some r →
  JobReady job ≤ r.
Proof. intros I%handlers_reachable_inv. apply (Handlers.winv_retrieved _ I). Qed.

(** An unsupported product is answered 400 and changes nothing (C5). *)
Lemma handlers_unsupported_product (m : Handlers.Machine) now fresh
    (product : Product) (jobID : string) :
  Handlers.supported product = false →
  Handlers.StartJob m now fresh
    {| Handlers.req_method := "POST"; Handlers.req_body := Some (product, jobID) |}
  = Handlers.reject m "Unsupported product" 400.
Proof. intros Hp. unfold Handlers.StartJob. simpl. by rewrite Hp. Qed.

(** The second of two [/start-job] requests for "job-1" is answered 503,
    machine busy; with no identifier check in this handler, no request is
    ever answered with a conflict (C4). *)
Lemma handlers_duplicate_start_is_busy (t1 t2 : Z) (fresh1 fresh2 : string) :
  let r := {| Handlers.req_method := "POST";
              Handlers.req_body := Some (ProductKakao, "job-1") |} in
  let first := Handlers.StartJob Handlers.NewMachine t1 fresh1 r in
  (∃ job, Handlers.st_response first = Handlers.Encoded job) ∧
  Handlers.StartJob (Handlers.st_machine first) t2 fresh2 r
    = Handlers.reject (Handlers.st_machine first) "Machine is busy" 503.
Proof.
  assert (Handlers.supported ProductKakao = true) as Hs by (vm_compute; reflexivity).
  intros r first. subst first r. unfold Handlers.StartJob. simpl. rewrite Hs. simpl.
  eauto.
Qed.

(** The three answers of [RetrieveJob] for the record an identifier maps
    to (C3); this handler never refuses a second [/start-job] for an
    identifier whose job has been retrieved, after which the identifier maps
    to the new record. *)
Lemma handlers_retrieve_answers (m : Handlers.Machine) (t1 t2 : Z)
    (jobID : string) (p : nat) (job : Job) :
  jobID ≠ "" →
  Handlers.jobs m !! jobID = Some p →
  Handlers.history m !! p = Some job →
  (∀ r, JobRetrieved job = Some r →
     Handlers.RetrieveJob m t1 t2 jobID
       = (m, Handlers.Failure "Job already retrieved" 410)) ∧
  (JobRetrieved job = None → t1 < JobReady job →
     Handlers.RetrieveJob m t1 t2 jobID
       = (m, Handlers.Failure "Job not ready" 503)) ∧
  (JobRetrieved job = None → JobReady job ≤ t1 →
     (Handlers.RetrieveJob m t1 t2 jobID).2
       = Handlers.Encoded (set_retrieved job t2)).
Proof.
  intros Hne Hp Hj. unfold Handlers.RetrieveJob.
  rewrite bool_decide_eq_false_2 by done. rewrite Hp, Hj. split_and!.
  - by intros r ->.
  - intros -> Hlt. by rewrite (proj2 (Z.ltb_lt _ _) Hlt).
  - intros -> Hge. rewrite (proj2 (Z.ltb_ge _ _) Hge). by case_bool_decide.
Qed.

(** * Further properties of the machine *)

(** ** The default brew time *)

(** X1: when [r.Intn(n)] answers within [0, n), the default brew time is
    between 20 and 55 seconds, both included, and a job admitted with it is
    ready no earlier than 20 and no later than 55 seconds after it started. *)
Theorem default_brew_between_20_and_55 (intn : Z → Z) (m : Machine)
    (env : StartEnv) (product : Product) (jobID : string) (job : Job) :
  0 ≤ intn (maxBrewSeconds - minBrewSeconds + 1)
    < maxBrewSeconds - minBrewSeconds + 1 →
  env_brew env = defaultBrewTime intn →
  st_result (StartJob m env product jobID) = Ok job →
  20 * Second ≤ defaultBrewTime intn ≤ 55 * Second ∧
  JobStarted job + 20 * Second ≤ JobReady job ≤ JobStarted job + 55 * Second.
Proof.
  intros Hn Hb Hok.
  assert (20 * Second ≤ defaultBrewTime intn ≤ 55 * Second) as Hd.
  { unfold defaultBrewTime, maxBrewSeconds, minBrewSeconds, Second in *. lia. }
  split; [done|].
  destruct (StartJob_cases m env product jobID)
    as [[e He]|(id & _ & _ & _ & _ & _ & He)]; rewrite He in Hok; [done|].
  simpl in Hok. injection Hok as <-. simpl. rewrite Hb. lia.
Qed.

Lemma default_brew_between_20_and_55_witness :
  defaultBrewTime (λ n, n - 1) = 55 * Second ∧
  20 * Second ≤ defaultBrewTime (λ n, n - 1) ≤ 55 * Second.
Proof.
  split; [reflexivity|].
  refine (proj1 (default_brew_between_20_and_55 (λ n, n - 1) NewMachine
                   {| env_now := 0; env_entropy := EntropyFail "";
                      env_brew := defaultBrewTime (λ n, n - 1) |}
                   ProductCoffee "job-1"
                   {| JobID := "job-1"; JobProduct := ProductCoffee;
                      JobStarted := 0; JobReady := 55000000000;
                      JobRetrieved := None |} _ _ _)).
  - unfold maxBrewSeconds, minBrewSeconds. lia.
  - reflexivity.
  - vm_compute. reflexivity.
Defined.

(** ** Readiness *)

(** X2: in every reachable world [Ready()] answers true exactly when every
    job of the job set has been retrieved, which is exactly when no job is
    current; and at most one job is unretrieved at any time. *)
Theorem ready_iff_all_retrieved (w : World) :
  reachable w →
  (Ready (machine w) = true ↔
     ∀ jobID job, jobs (machine w) !! jobID = Some job → JobRetrieved job ≠ None) ∧
  (Ready (machine w) = true ↔ currentJob (machine w) = "") ∧
  (∀ id1 id2, unretrieved (machine w) id1 → unretrieved (machine w) id2 →
     id1 = id2).
Proof.
  intros I%reachable_inv. pose proof (winv_machine _ I) as IM.
  assert (Ready (machine w) = true ↔ currentJob (machine w) = "") as Hcur.
  { unfold Ready. rewrite bool_decide_eq_true. apply (inv_state _ IM). }
  split_and!; [|done|].
  - rewrite Hcur. split.
    + intros Hc jobID job Hj Hr. pose proof (inv_active _ IM _ _ Hj Hr) as Ha.
      rewrite Hc in Ha. subst jobID. by rewrite (inv_no_empty _ IM) in Hj.
    + intros Hall. destruct (decide (currentJob (machine w) = "")) as [|Hne]; [done|].
      destruct (inv_current _ IM Hne) as (job & Hj & Hr). by destruct (Hall _ _ Hj).
  - intros id1 id2 (j1 & H1 & R1) (j2 & H2 & R2).
    rewrite <-(inv_active _ IM _ _ H1 R1). apply (inv_active _ IM _ _ H2 R2).
Qed.

Lemma ready_iff_all_retrieved_witness :
  Ready (machine (after 0 blocked_pickup)) = true
    ↔ currentJob (machine (after 0 blocked_pickup)) = "".
Proof.
  exact (proj1 (proj2 (ready_iff_all_retrieved (after 0 blocked_pickup)
                         (after_reachable 0 blocked_pickup)))).
Defined.

(** ** Unknown identifiers *)

Lemma reachable_jobs_history (w : World) (jobID : string) :
  reachable w →
  (is_Some (jobs (machine w) !! jobID) ↔ jobID ∈ history (machine w)).
Proof.
  intros I%reachable_inv. symmetry. apply (inv_hist_dom _ (winv_machine _ I)).
Qed.

(** X3: after any schedule from a new machine, [RetrieveJob] fails with
    [ErrJobNotFound] exactly for the identifiers no successful [StartJob]
    of the schedule admitted, and then it changes nothing. *)
Theorem not_found_iff_never_admitted (t0 : Z) (evs : list Event) (w : World)
    (outs : list Output) (t1 t2 : Z) (jobID : string) :
  run (boot t0) evs = Some (w, outs) →
  ((RetrieveJob (machine w) t1 t2 jobID).2 = Err ErrJobNotFound
     ↔ jobID ∉ admitted evs outs) ∧
  (jobID ∉ admitted evs outs →
     RetrieveJob (machine w) t1 t2 jobID = (machine w, Err ErrJobNotFound)).
Proof.
  intros Hrun.
  assert (reachable w) as Hw by (eapply run_reachable; [apply reach_boot|done]).
  pose proof (reachable_jobs_history w jobID Hw) as Hdom.
  rewrite (run_history _ _ _ _ Hrun) in Hdom. simpl in Hdom.
  unfold RetrieveJob.
  destruct (jobs (machine w) !! jobID) as [job|] eqn:Hj.
  - assert (jobID ∈ admitted evs outs) as Hin by (apply Hdom; eauto).
    split; [|done].
    destruct (JobRetrieved job); [split; [done|tauto]|].
    destruct (t1 <? JobReady job); [split; [done|tauto]|].
    case_bool_decide; simpl; (split; [done|tauto]).
  - assert (jobID ∉ admitted evs outs) as Hout.
    { intros Hin%Hdom. by destruct Hin. }
    done.
Qed.

Lemma not_found_iff_never_admitted_witness :
  RetrieveJob (machine (after 0 blocked_pickup)) 20 20 "job-2"
    = (machine (after 0 blocked_pickup), Err ErrJobNotFound).
Proof.
  refine (proj2 (not_found_iff_never_admitted 0 blocked_pickup
                   (after 0 blocked_pickup) (outputs 0 blocked_pickup)
                   20 20 "job-2" _) _).
  - vm_compute. reflexivity.
  - vm_compute. intros H. inversion H as [|? ? ? H']; subst. inversion H'.
Defined.

(** ** The life of a record *)

Lemma evolves_refl (a : Job) : evolves a a.
Proof. by repeat split. Qed.

Lemma evolves_trans (a b c : Job) : evolves a b → evolves b c → evolves a c.
Proof.
  intros (? & ? & ? & ? & Hab) (? & ? & ? & ? & Hbc).
  repeat split; try congruence. intros r Hr. by apply Hbc, Hab.
Qed.

Lemma step_evolves (w w' : World) ev o jobID job :
  step w ev = Some (w', o) →
  jobs (machine w) !! jobID = Some job →
  ∃ job', jobs (machine w') !! jobID = Some job' ∧ evolves job job'.
Proof.
  intros Hstep Hj. destruct ev as [env p id|t1 t2 id|now k|now]; simpl in Hstep.
  - case_bool_decide; [|done]. injection Hstep as <- _. simpl.
    destruct (StartJob_cases (machine w) env p id)
      as [[e ->]|(id' & _ & _ & _ & Hfresh & _ & ->)]; simpl.
    + eauto using evolves_refl.
    + exists job. split; [|apply evolves_refl].
      rewrite lookup_insert_ne; [done|congruence].
  - case_bool_decide; [|done]. injection Hstep as <- _. simpl.
    destruct (RetrieveJob_cases (machine w) t1 t2 id)
      as [[e ->]|(j & Hl & Hn & _ & ->)]; simpl; [eauto using evolves_refl|].
    destruct (decide (id = jobID)) as [->|Hne].
    + assert (j = job) as -> by congruence.
      exists (set_retrieved job t2). split.
      * case_bool_decide; simpl; by rewrite lookup_insert_eq.
      * repeat split. intros r Hr. congruence.
    + exists job. split; [|apply evolves_refl].
      case_bool_decide; simpl; by rewrite lookup_insert_ne.
  - destruct (timers w !! k) as [tm|]; [|done].
    case_bool_decide; [|done]. injection Hstep as <- _. simpl.
    exists job. split; [|apply evolves_refl].
    by destruct (awaitCompletion_cases (machine w) (timer_job tm)) as [[_ ->]|[_ ->]].
  - case_bool_decide; [|done]. injection Hstep as <- _.
    eauto using evolves_refl.
Qed.

(** X4: a job, once in the job set, stays in it under its identifier
    whatever the schedule; its product, start and ready instants never
    change, and once it has a retrieval instant its record never changes
    again. *)
Theorem jobs_only_gain_retrieval (w w' : World) (evs : list Event)
    (outs : list Output) (jobID : string) (job : Job) :
  run w evs = Some (w', outs) →
  jobs (machine w) !! jobID = Some job →
  ∃ job', jobs (machine w') !! jobID = Some job' ∧ evolves job job' ∧
          (JobRetrieved job ≠ None → job' = job).
Proof.
  revert w outs job. induction evs as [|ev evs IH]; intros w outs job Hrun Hj;
    simpl in Hrun.
  - injection Hrun as <- _. exists job. split_and!; [done|apply evolves_refl|done].
  - destruct (step w ev) as [[w1 o]|] eqn:Hs; [|done].
    destruct (run w1 evs) as [[w2 os]|] eqn:Hrest; [|done].
    injection Hrun as <- _.
    destruct (step_evolves _ _ _ _ _ _ Hs Hj) as (j1 & Hj1 & He1).
    destruct (IH _ _ _ Hrest Hj1) as (j2 & Hj2 & He2 & Hsame).
    exists j2. split_and!; [done|by eapply evolves_trans|].
    intros Hr. destruct (JobRetrieved job) as [r|] eqn:Hjr; [|done].
    assert (j1 = job) as ->.
    { pose proof (step_keeps_retrieved _ _ _ _ _ _ _ Hs Hj Hjr). congruence. }
    apply Hsame. by rewrite Hjr.
Qed.

Lemma jobs_only_gain_retrieval_witness :
  ∃ job', jobs (machine (after 0 blocked_pickup)) !! "job-1" = Some job' ∧
          evolves (mkJob "job-1" ProductKakao 0 10 None) job'.
Proof.
  destruct (jobs_only_gain_retrieval (after 0 brew_job1) (after 0 blocked_pickup)
              (tail blocked_pickup) (tail (outputs 0 blocked_pickup)) "job-1"
              (mkJob "job-1" ProductKakao 0 10 None))
    as (job' & Hj & He & _); [vm_compute; reflexivity..|].
  exists job'. split; [exact Hj|exact He].
Defined.

(** ** Jobs do not overlap *)

Lemma available_all_retrieved (m : Machine) (jobID : string) (job : Job) :
  machine_inv m → state m = StateAvailable →
  jobs m !! jobID = Some job → ∃ r, JobRetrieved job = Some r.
Proof.
  intros IM Hs Hj. destruct (JobRetrieved job) as [r|] eqn:Hr; [eauto|].
  pose proof (inv_active _ IM _ _ Hj Hr) as Ha.
  apply (inv_state _ IM) in Hs. rewrite Hs in Ha. subst jobID.
  by rewrite (inv_no_empty _ IM) in Hj.
Qed.

Lemma apart_sym (a b : Job) : apart a b → apart b a.
Proof. intros [H|H]; [right|left]; done. Qed.

(** X5: in every reachable world any two jobs are apart in time: one of
    them was retrieved no later than the other started.  The machine never
    brews two jobs at once, and never starts a job before the previous one
    has been taken away. *)
Theorem jobs_never_overlap (w : World) (id1 id2 : string) (j1 j2 : Job) :
  reachable w →
  jobs (machine w) !! id1 = Some j1 →
  jobs (machine w) !! id2 = Some j2 →
  id1 ≠ id2 →
  apart j1 j2.
Proof.
  intros Hw. revert id1 id2 j1 j2.
  induction Hw as [t0|w ev w' o Hw IH Hstep]; intros id1 id2 j1 j2; [done|].
  pose proof (reachable_inv _ Hw) as I. pose proof (winv_machine _ I) as IM.
  destruct ev as [env p id|t1 t2 id|now k|now]; simpl in Hstep.
  - case_bool_decide as Hc; [|done]. injection Hstep as <- _. simpl.
    destruct (StartJob_cases (machine w) env p id)
      as [[e ->]|(id' & _ & Hs & _ & Hfresh & _ & ->)]; simpl; [apply IH|].
    assert (∀ k j, jobs (machine w) !! k = Some j →
              ∃ r, JobRetrieved j = Some r ∧ r ≤ env_now env) as Hold.
    { intros k j Hk. destruct (available_all_retrieved _ _ _ IM Hs Hk) as [r Hr].
      exists r. split; [done|]. destruct (winv_retrieved _ I _ _ _ Hk Hr). lia. }
    rewrite !lookup_insert. repeat case_decide; try congruence.
    + intros [= <-] Hb _. right. simpl. apply (Hold _ _ Hb).
    + intros Ha [= <-] _. left. simpl. apply (Hold _ _ Ha).
    + apply IH.
  - case_bool_decide; [|done]. injection Hstep as <- _. simpl.
    destruct (RetrieveJob_cases (machine w) t1 t2 id)
      as [[e ->]|(j & Hl & Hn & _ & ->)]; simpl; [apply IH|].
    assert (∀ k jk, jobs (machine w) !! k = Some jk → id ≠ k →
              apart (set_retrieved j t2) jk) as Hset.
    { intros k jk Hk Hne. destruct (IH _ _ _ _ Hl Hk Hne) as [(r & Hr & _)|Hr].
      - congruence.
      - by right. }
    assert (∀ a b, jobs (if bool_decide (currentJob (machine w) = id)
                          then {| state := StateAvailable;
                                  jobs := <[id := set_retrieved j t2]>
                                            (jobs (machine w));
                                  history := history (machine w);
                                  currentJob := "" |}
                          else {| state := state (machine w);
                                  jobs := <[id := set_retrieved j t2]>
                                            (jobs (machine w));
                                  history := history (machine w);
                                  currentJob := currentJob (machine w) |}) !! a = b
              ↔ <[id := set_retrieved j t2]> (jobs (machine w)) !! a = b) as Hjobs
      by (intros a b; by case_bool_decide).
    rewrite !Hjobs, !lookup_insert. clear Hjobs.
    repeat case_decide; try congruence.
    + intros [= <-] Hb _. by apply (Hset _ _ Hb).
    + intros Ha [= <-] _. apply apart_sym. by apply (Hset _ _ Ha).
    + apply IH.
  - destruct (timers w !! k) as [tm|]; [|done].
    case_bool_decide; [|done]. injection Hstep as <- _. simpl.
    destruct (awaitCompletion_cases (machine w) (timer_job tm)) as [[_ ->]|[_ ->]];
      apply IH.
  - case_bool_decide; [|done]. injection Hstep as <- _. apply IH.
Qed.

Lemma jobs_never_overlap_witness :
  apart (mkJob "job-1" ProductKakao 0 10 (Some 16))
        (mkJob "job-2" ProductEspresso 20 50 None).
Proof.
  apply (jobs_never_overlap (after 0 two_jobs) "job-1" "job-2" _ _
           (after_reachable 0 two_jobs)); [vm_compute; reflexivity..|discriminate].
Defined.

(** ** Failed calls, and a job from start to pickup *)

(** X6: a call that returns an error has no effect.  A failed [StartJob],
    for whichever of its reasons, leaves the machine as it was and starts no
    goroutine; a successful one starts exactly one, for the job it returns.
    A failed [RetrieveJob] leaves the machine as it was. *)
Theorem failed_calls_change_nothing (m : Machine) (env : StartEnv)
    (product : Product) (jobID : string) (t1 t2 : Z) :
  (is_ok (st_result (StartJob m env product jobID)) = false →
     st_machine (StartJob m env product jobID) = m ∧
     st_timer (StartJob m env product jobID) = None) ∧
  (∀ job, st_result (StartJob m env product jobID) = Ok job →
     ∃ wake, st_timer (StartJob m env product jobID)
               = Some {| timer_job := JobID job; timer_wake := wake |} ∧
             JobReady job ≤ wake ∧ JobStarted job ≤ wake) ∧
  (is_ok (RetrieveJob m t1 t2 jobID).2 = false →
     (RetrieveJob m t1 t2 jobID).1 = m).
Proof.
  split_and!.
  - destruct (StartJob_cases m env product jobID)
      as [[e ->]|(id & _ & _ & _ & _ & _ & ->)]; [done|]. simpl. done.
  - intros job. destruct (StartJob_cases m env product jobID)
      as [[e ->]|(id & _ & _ & _ & _ & _ & ->)]; [done|]. simpl.
    intros [= <-]. simpl. eexists. split; [done|]. lia.
  - destruct (RetrieveJob_cases m t1 t2 jobID)
      as [[e ->]|(job & _ & _ & _ & ->)]; [done|]. simpl. done.
Qed.

Lemma failed_calls_change_nothing_witness :
  st_machine (StartJob (machine (after 0 brew_job1)) job1_env ProductKakao "job-2")
    = machine (after 0 brew_job1).
Proof.
  refine (proj1 (proj1 (failed_calls_change_nothing (machine (after 0 brew_job1))
                          job1_env ProductKakao "job-2" 0 0) _)).
  vm_compute. reflexivity.
Defined.

(** X7: a supported product admitted on an available machine under a fresh
    identifier, then retrieved at or after its ready instant: the retrieval
    succeeds, returns the admitted job stamped with the second clock
    reading, and leaves the machine available, with exactly that stamped
    record added to the job set and that identifier appended to the
    history. *)
Theorem start_then_retrieve (m : Machine) (env : StartEnv) (product : Product)
    (jobID : string) (t1 t2 : Z) :
  valid product = true →
  state m = StateAvailable →
  jobID ≠ "" →
  jobs m !! jobID = None →
  env_now env + env_brew env ≤ t1 →
  let job := {| JobID := jobID; JobProduct := product;
                JobStarted := env_now env;
                JobReady := env_now env + env_brew env;
                JobRetrieved := Some t2 |} in
  RetrieveJob (st_machine (StartJob m env product jobID)) t1 t2 jobID =
    ({| state := StateAvailable; jobs := <[jobID := job]> (jobs m);
        history := history m ++ [jobID]; currentJob := "" |}, Ok job).
Proof.
  intros Hv Hs Hne Hfresh Hready job.
  rewrite StartJob_admits by done. simpl.
  unfold RetrieveJob. simpl. rewrite lookup_insert_eq. simpl.
  rewrite (proj2 (Z.ltb_ge _ _) Hready).
  rewrite bool_decide_eq_true_2 by done.
  unfold set_retrieved. simpl. by rewrite insert_insert_eq.
Qed.

Lemma start_then_retrieve_witness :
  (RetrieveJob (st_machine (StartJob NewMachine job1_env ProductKakao "job-1"))
     12 13 "job-1").2
  = Ok (mkJob "job-1" ProductKakao 0 10 (Some 13)).
Proof.
  rewrite (start_then_retrieve NewMachine job1_env ProductKakao "job-1" 12 13);
    [reflexivity|vm_compute; reflexivity|reflexivity|discriminate|
     reflexivity|vm_compute; discriminate].
Defined.

(** ** [History()] and the job set *)

Lemma jobs_size_history (m : Machine) :
  machine_inv m → size (jobs m) = length (history m).
Proof.
  intros IM. rewrite <-size_dom.
  assert (dom (jobs m) = list_to_set (history m)) as ->.
  { apply set_eq. intros id.
    rewrite elem_of_dom, elem_of_list_to_set. symmetry. apply (inv_hist_dom _ IM). }
  apply size_list_to_set, (inv_hist_nodup _ IM).
Qed.

(** X8: in every reachable world [History()] is a listing of the job set
    without repetition: a record is in it exactly when it is the record of
    some identifier, no record occurs twice, and its length is the size of
    the job set. *)
Theorem history_lists_the_job_set (w : World) :
  reachable w →
  (∀ job, job ∈ History (machine w)
          ↔ ∃ jobID, jobs (machine w) !! jobID = Some job) ∧
  NoDup (History (machine w)) ∧
  length (History (machine w)) = size (jobs (machine w)).
Proof.
  intros I%reachable_inv. pose proof (winv_machine _ I) as IM.
  pose proof (History_ids _ IM) as Hids. split_and!.
  - intros job. rewrite History_omap, list_elem_of_omap. split.
    + intros (id & _ & Hj). eauto.
    + intros (id & Hj). exists id. split; [|done].
      apply (inv_hist_dom _ IM). eauto.
  - apply (NoDup_fmap_1 JobID). rewrite Hids. apply (inv_hist_nodup _ IM).
  - rewrite (jobs_size_history _ IM), <-Hids. by rewrite length_fmap.
Qed.

Lemma history_lists_the_job_set_witness :
  length (History (machine (after 0 two_jobs)))
    = size (jobs (machine (after 0 two_jobs))).
Proof.
  exact (proj2 (proj2 (history_lists_the_job_set (after 0 two_jobs)
                         (after_reachable 0 two_jobs)))).
Defined.

(** ** The sleeping goroutines *)

(** X9: in every reachable world each sleeping goroutine belongs to a job
    of the job set and cannot wake before that job's ready instant; no job
    has two of them, so there are no more goroutines than jobs; and the
    goroutine of any job other than the current one finds its job retrieved
    and changes nothing when it runs. *)
Theorem goroutines_belong_to_jobs (w : World) :
  reachable w →
  (∀ tm, tm ∈ timers w →
     ∃ job, jobs (machine w) !! timer_job tm = Some job ∧
            JobReady job ≤ timer_wake tm) ∧
  NoDup (timer_job <$> timers w) ∧
  (length (timers w) ≤ size (jobs (machine w)))%nat ∧
  (∀ tm, tm ∈ timers w → timer_job tm ≠ currentJob (machine w) →
     awaitCompletion (machine w) (timer_job tm) = machine w).
Proof.
  intros I%reachable_inv. pose proof (winv_machine _ I) as IM.
  split_and!.
  - apply (winv_timer_job _ I).
  - apply (winv_timer_nodup _ I).
  - rewrite (jobs_size_history _ IM), <-(length_fmap timer_job).
    apply submseteq_length, NoDup_submseteq; [apply (winv_timer_nodup _ I)|].
    intros id (tm & -> & Htm)%list_elem_of_fmap.
    apply (inv_hist_dom _ IM). destruct (winv_timer_job _ I _ Htm) as (j & Hj & _).
    eauto.
  - intros tm Htm Hne.
    destruct (awaitCompletion_cases (machine w) (timer_job tm))
      as [[_ ->]|[(job & Hj & Hr) _]]; [done|].
    destruct Hne. symmetry. by eapply inv_active.
Qed.

Lemma goroutines_belong_to_jobs_witness :
  (length (timers (after 0 two_jobs))
     ≤ size (jobs (machine (after 0 two_jobs))))%nat.
Proof.
  exact (proj1 (proj2 (proj2 (goroutines_belong_to_jobs (after 0 two_jobs)
                                (after_reachable 0 two_jobs))))).
Defined.

(** ** What an identifier keeps of the entropy *)

Lemma unhex2_byte (b : byte) :
  unhex2 (hex_digit (N.shiftr (Byte.to_N b) 4))
         (hex_digit (N.land (Byte.to_N b) 15)) = Byte.to_N b.
Proof. destruct b; reflexivity. Qed.

Lemma unhex2_version_byte (b : byte) :
  let n := N.lor (N.land (Byte.to_N b) 15) 64 in
  unhex2 (hex_digit (N.shiftr n 4)) (hex_digit (N.land n 15)) = n ∧
  (64 ≤ n < 80)%N.
Proof. destruct b; vm_compute; done. Qed.

Lemma unhex2_variant_byte (b : byte) :
  let n := N.lor (N.land (Byte.to_N b) 63) 128 in
  unhex2 (hex_digit (N.shiftr n 4)) (hex_digit (N.land n 15)) = n ∧
  (128 ≤ n < 192)%N.
Proof. destruct b; vm_compute; done. Qed.

Lemma parse_format_uuid (bs : list byte) :
  parse_uuid (format_uuid bs) = uuid_byte bs <$> seq 0 16.
Proof.
  cbv -[hex_digit unhex2 N.shiftr N.land N.lor Byte.to_N nth].
  rewrite !unhex2_byte.
  rewrite (proj1 (unhex2_version_byte (nth 6 bs x00))).
  rewrite (proj1 (unhex2_variant_byte (nth 8 bs x00))).
  reflexivity.
Qed.

(** X10: the identifier spells out its sixteen bytes: reading the hexadecimal
    groups of a generated identifier back gives the bytes that were printed.
    So two reads of the entropy source give the same identifier exactly when
    they agree on every byte after the version and variant bits are set, and
    the identifier's byte 6 lies in [0x40, 0x4f] and its byte 8 in
    [0x80, 0xbf] whatever was read. *)
Theorem identifier_spells_its_bytes (bs : list byte) :
  parse_uuid (format_uuid bs) = uuid_byte bs <$> seq 0 16 ∧
  (∀ bs', format_uuid bs = format_uuid bs'
          ↔ ∀ i, (i < 16)%nat → uuid_byte bs i = uuid_byte bs' i) ∧
  (64 ≤ uuid_byte bs 6 < 80)%N ∧ (128 ≤ uuid_byte bs 8 < 192)%N.
Proof.
  split; [|split; [|split]].
  - apply parse_format_uuid.
  - intros bs'. split.
    + intros Heq i Hi.
      assert (uuid_byte bs <$> seq 0 16 = uuid_byte bs' <$> seq 0 16) as Hl
        by (by rewrite <-!parse_format_uuid, Heq).
      assert ((uuid_byte bs <$> seq 0 16) !! i = Some (uuid_byte bs i)) as Hi1.
      { rewrite list_lookup_fmap, lookup_seq_lt by done. done. }
      rewrite Hl, list_lookup_fmap, lookup_seq_lt in Hi1 by done.
      by injection Hi1.
    + intros H. unfold format_uuid, hex_run. cbn [foldr].
      by rewrite !H by lia.
  - apply (unhex2_version_byte (nth 6 bs x00)).
  - apply (unhex2_variant_byte (nth 8 bs x00)).
Qed.

(** * The HTTP server *)

(** The errors [StartJob] can return, with what each one tells. *)
Lemma StartJob_result_cases (m : Machine) env product jobID :
  (st_result (StartJob m env product jobID) = Err ErrUnsupportedProduct ∧
     valid product = false) ∨
  (st_result (StartJob m env product jobID) = Err ErrMachineBusy ∧
     valid product = true ∧ state m ≠ StateAvailable) ∨
  (st_result (StartJob m env product jobID) = Err ErrJobIDExists ∧
     valid product = true ∧ state m = StateAvailable) ∨
  (∃ cause,
     st_result (StartJob m env product jobID) = Err (ErrGenerateJobID cause) ∧
     valid product = true ∧ state m = StateAvailable ∧
     jobID = "" ∧ env_entropy env = EntropyFail cause) ∨
  (∃ job,
     st_result (StartJob m env product jobID) = Ok job ∧
     valid product = true ∧ state m = StateAvailable ∧
     jobs m !! JobID job = None ∧
     jobs (st_machine (StartJob m env product jobID)) !! JobID job = Some job ∧
     state (st_machine (StartJob m env product jobID)) = StateBrewing).
Proof.
  unfold StartJob.
  destruct (valid product) eqn:Hv; simpl; [|by left].
  case_bool_decide as Hs; simpl; [|right; left; done].
  case_bool_decide as Hid.
  - destruct (env_entropy env) as [cause|bs] eqn:He; simpl.
    + do 3 right. left. exists cause. done.
    + destruct (jobs m !! format_uuid bs) eqn:Hl; [right; right; left; done|].
      do 4 right. eexists. split; [reflexivity|]. simpl.
      split_and!; [done..|apply lookup_insert_eq|done].
  - destruct (jobs m !! jobID) eqn:Hl; [right; right; left; done|].
    do 4 right. eexists. split; [reflexivity|]. simpl.
    split_and!; [done..|apply lookup_insert_eq|done].
Qed.

(** Side conditions on a reply whose status code is known: membership in
    the list of codes, and equivalences or implications one side of which is
    an equation between numerals. *)
Ltac reply_open :=
  repeat match goal with
         | H : _ ∧ _ |- _ => destruct H
         | H : ∃ _, _ |- _ => destruct H
         end;
  simplify_eq.

Ltac reply_prove :=
  solve [ repeat (split || eexists);
          first [eassumption | reflexivity | congruence | lia] ].

Ltac reply_refute :=
  solve [ reply_open; first [done | congruence | lia] ].

Ltac reply_side :=
  first [ done
        | solve [repeat first [apply list_elem_of_here | apply list_elem_of_further]]
        | solve [intros Hreply;
                 first [discriminate Hreply | by destruct Hreply | reply_prove
                       | reply_refute]]
        | solve [split; intros Hreply;
                 first [discriminate Hreply | reflexivity | reply_prove
                       | reply_refute]]
        | reply_prove ].

(** X11: what [handleStartJob] answers.  The status is one of 202, 400,
    405, 409, 500 and 503; it is 405 exactly for a method other than POST;
    unless it is 202 the machine is untouched and no goroutine is started;
    when it is 202 the body is the admitted job, now recorded in a brewing
    machine under an identifier that was free; it is 503 only when the
    machine is not available, and 500 only when no identifier was sent and
    the entropy source failed. *)
Theorem handleStartJob_replies (m : Machine) (env : StartEnv) (method : string)
    (body : option (string * Product)) :
  let sv := handleStartJob m env method body in
  let code := reply_code (sv_reply sv) in
  code ∈ [202; 400; 405; 409; 500; 503] ∧
  (code = 405 ↔ method ≠ "POST") ∧
  (code ≠ 202 → sv_machine sv = m ∧ sv_timer sv = None) ∧
  (code = 202 →
     ∃ job, reply_body (sv_reply sv) = PJob job ∧
            jobs m !! JobID job = None ∧
            jobs (sv_machine sv) !! JobID job = Some job ∧
            Status (sv_machine sv) = StateBrewing) ∧
  (code = 503 → Status m ≠ StateAvailable) ∧
  (code = 500 →
     ∃ product cause, body = Some ("", product) ∧
                      env_entropy env = EntropyFail cause).
Proof.
  unfold handleStartJob. case_bool_decide as Hm; simpl.
  2: { split_and!; reply_side. }
  destruct body as [[jobID product]|]; simpl.
  2: { split_and!; reply_side. }
  pose proof (StartJob_cases m env product jobID) as Hcases.
  destruct (StartJob_result_cases m env product jobID)
    as [[Hr _]|[(Hr & _ & Hs)|[[Hr _]|[(cause & Hr & _ & _ & -> & He)
       |(job & Hr & _ & _ & Hfresh & Hj & Hs)]]]]; rewrite Hr; simpl.
  1-4: destruct Hcases as [[e Hf]|(id & _ & _ & _ & _ & _ & Hf)];
         rewrite Hf in Hr |- *; [|done]; split_and!; reply_side.
  clear Hcases. split_and!; reply_side.
Qed.

(** X12: what [handleRetrieveJob] answers.  The status is one of 200, 400,
    404, 410 and 503, never 500.  It is 400 exactly when the query has no
    non-empty first value under the key [jobId] (whatever it has under other
    keys), 404 exactly when that identifier is not in the job set, 410
    exactly when its job is retrieved already, 503 exactly when its job is
    unretrieved and the first clock reading is before its ready instant.
    Unless the status is 200 the machine is untouched; when it is 200 the
    body is the job, stamped with the second clock reading. *)
Theorem handleRetrieveJob_replies (m : Machine) (t1 t2 : Z)
    (q : gmap string (list string)) :
  let r := handleRetrieveJob m t1 t2 q in
  let code := reply_code r.2 in
  let jobID := query_get q "jobId" in
  code ∈ [200; 400; 404; 410; 503] ∧
  (code = 400 ↔ jobID = "") ∧
  (q !! "jobId" = None → code = 400) ∧
  (code = 404 ↔ jobID ≠ "" ∧ jobs m !! jobID = None) ∧
  (code = 410 ↔ jobID ≠ "" ∧
     ∃ job, jobs m !! jobID = Some job ∧ JobRetrieved job ≠ None) ∧
  (code = 503 ↔ jobID ≠ "" ∧
     ∃ job, jobs m !! jobID = Some job ∧ JobRetrieved job = None ∧
            t1 < JobReady job) ∧
  (code ≠ 200 → r.1 = m) ∧
  (code = 200 →
     ∃ job, jobs m !! jobID = Some job ∧ JobRetrieved job = None ∧
            JobReady job ≤ t1 ∧
            reply_body r.2 = PJob (set_retrieved job t2)).
Proof.
  intros r code jobID. subst r code.
  assert (q !! "jobId" = None → jobID = "") as Hmissing.
  { intros Hq. subst jobID. unfold query_get. by rewrite Hq. }
  unfold handleRetrieveJob. fold jobID. clearbody jobID.
  case_bool_decide as Hid; simpl; [split_and!; reply_side|].
  assert (q !! "jobId" ≠ None) as Hq by (intros Hq; by apply Hid, Hmissing).
  clear Hmissing. unfold RetrieveJob.
  destruct (jobs m !! jobID) as [job|] eqn:Hj; simpl; [|split_and!; reply_side].
  destruct (JobRetrieved job) as [rt|] eqn:Hr; simpl; [split_and!; reply_side|].
  destruct (Z.ltb_spec t1 (JobReady job)) as [Hlt|Hge]; simpl;
    [split_and!; reply_side|].
  case_bool_decide; simpl; split_and!; reply_side.
Qed.

Lemma stateString_inj : Inj (=) (=) stateString.
Proof. by intros [] [] ?. Qed.

Lemma state_code_inj : Inj (=) (=) state_code.
Proof. by intros [] [] ?. Qed.

(** X13: the probes tell the same story.  [/readyz] and [/status] answer
    200 when the machine is available and 503 otherwise, together; the gauge
    of [/metrics] reads 0 exactly then, and is 0, 1 or 2; a POST to
    [/start-job] with a supported product is answered 503 exactly when
    [/readyz] is.  The payload of [/status] and the text of [/metrics] each
    determine the state; [/healthz] answers 200 whatever the state. *)
Theorem probes_agree (m : Machine) :
  (reply_code (handleReadyz m) = 200 ↔ Status m = StateAvailable) ∧
  (reply_code (handleReadyz m) = 503 ↔ Status m ≠ StateAvailable) ∧
  reply_code (handleStatus m) = reply_code (handleReadyz m) ∧
  (reply_body (handleMetrics m)
     = PText (String.append "coffee_machine_status 0" LF)
   ↔ Status m = StateAvailable) ∧
  0 ≤ state_code (Status m) ≤ 2 ∧
  (∀ env jobID product, valid product = true →
     (reply_code (sv_reply (handleStartJob m env "POST" (Some (jobID, product))))
        = 503
      ↔ reply_code (handleReadyz m) = 503)) ∧
  (∀ m', handleStatus m = handleStatus m' ↔ Status m = Status m') ∧
  (∀ m', handleMetrics m = handleMetrics m' ↔ Status m = Status m') ∧
  reply_code (handleHealthz m) = 200.
Proof.
  assert (reply_code (handleReadyz m) = 503 ↔ Status m ≠ StateAvailable) as Hbusy.
  { unfold handleReadyz, Ready, Status. case_bool_decide; simpl; reply_side. }
  split_and!; try done.
  - unfold handleReadyz, Ready, Status. case_bool_decide; simpl; reply_side.
  - unfold handleStatus, handleReadyz, Ready, Status.
    destruct (state m); reflexivity.
  - unfold handleMetrics, Status. destruct (state m); vm_compute; reply_side.
  - destruct (Status m); simpl; lia.
  - destruct (Status m); simpl; lia.
  - intros env jobID product Hv. rewrite Hbusy. unfold handleStartJob. simpl.
    destruct (StartJob_result_cases m env product jobID)
      as [[Hr ?]|[(Hr & _ & Hs)|[(Hr & _ & Hs)|[(cause & Hr & _ & Hs & _)
         |(job & Hr & _ & Hs & _)]]]]; rewrite Hr; simpl; unfold Status;
      first [congruence | reply_side].
  - intros m'. unfold handleStatus. split; [|by intros ->].
    intros [= _ Hn%stateString_inj _]. done.
  - intros m'. unfold handleMetrics. split; [|by intros ->].
    destruct (Status m), (Status m'); vm_compute; intros Heq;
      first [reflexivity | discriminate Heq].
Qed.

(** * The handler-level machine: its own bookkeeping *)

Lemma handlers_step_busy_inv (w w' : Handlers.World) ev o :
  Handlers.busy_inv (Handlers.machine w) →
  Handlers.step w ev = Some (w', o) →
  Handlers.busy_inv (Handlers.machine w').
Proof.
  intros [Is Io] Hstep.
  destruct ev as [now fresh r|t1 t2 jobID|now k]; simpl in Hstep.
  - case_bool_decide; [|done]. injection Hstep as <- _. simpl.
    destruct (handlers_StartJob_cases (Handlers.machine w) now fresh r)
      as [(msg & code & ->)|(job & Hs & Hr & _ & ->)]; [by split|].
    split; simpl; [done|].
    intros p j [Hj|[Hp Hj]]%lookup_app_Some Hn.
    + pose proof (Io _ _ Hj Hn) as Hc. apply Is in Hs. congruence.
    + apply list_lookup_singleton_Some in Hj as [Hz _]. f_equal. lia.
  - case_bool_decide; [|done]. injection Hstep as <- _. simpl.
    unfold Handlers.RetrieveJob.
    case_bool_decide; [by split|].
    destruct (Handlers.jobs (Handlers.machine w) !! jobID) as [p|]; [|by split].
    destruct (Handlers.history (Handlers.machine w) !! p) as [job|] eqn:Hj;
      [|by split].
    destruct (JobRetrieved job) eqn:Hr; [by split|].
    destruct (t1 <? JobReady job); [by split|].
    rewrite bool_decide_eq_true_2 by eauto. split; simpl; [done|].
    intros q j Hq Hn. destruct (decide (p = q)) as [<-|Hne].
    + rewrite list_lookup_insert_eq in Hq by (by eapply lookup_lt_Some).
      injection Hq as <-. done.
    + rewrite list_lookup_insert_ne in Hq by done.
      pose proof (Io _ _ Hq Hn). pose proof (Io _ _ Hj Hr). congruence.
  - destruct (Handlers.sleepers w !! k) as [sl|]; [|done].
    case_bool_decide; [|done]. injection Hstep as <- _. simpl.
    unfold Handlers.wake. case_bool_decide as Hc; [|by split].
    split; simpl; [|done]. split; [done|]. congruence.
Qed.

(** X14: in every reachable world of the handler-level machine, the state
    is available exactly when [currentJob] is [nil], every record of the
    history but the one [currentJob] points at is retrieved, so at most one
    record is unretrieved, and [/readyz] answers 200 exactly when all are
    retrieved. *)
Theorem handlers_one_unretrieved_record (w : Handlers.World) :
  Handlers.reachable w →
  Handlers.busy_inv (Handlers.machine w) ∧
  (∀ p q a b,
     Handlers.history (Handlers.machine w) !! p = Some a →
     Handlers.history (Handlers.machine w) !! q = Some b →
     JobRetrieved a = None → JobRetrieved b = None → p = q) ∧
  ((Handlers.Readyz (Handlers.machine w)).1 = 200 ↔
     ∀ p job, Handlers.history (Handlers.machine w) !! p = Some job →
              JobRetrieved job ≠ None).
Proof.
  intros Hw.
  assert (Handlers.busy_inv (Handlers.machine w)) as IB.
  { induction Hw as [t0|w ev w' o _ IH Hstep];
      [|by eapply handlers_step_busy_inv].
    split; simpl; [done|]. intros p job Hp. by rewrite lookup_nil in Hp. }
  pose proof (handlers_reachable_inv _ Hw) as I.
  destruct IB as [Is Io]. split_and!; [by split| |].
  - intros p q a b Ha Hb Hra Hrb.
    pose proof (Io _ _ Ha Hra). pose proof (Io _ _ Hb Hrb). congruence.
  - unfold Handlers.Readyz. case_bool_decide as Hs; simpl.
    + split; [intros _|done]. intros p job Hp Hr.
      pose proof (Io _ _ Hp Hr) as Hc. apply Is in Hs. congruence.
    + split; [done|]. intros Hall. destruct Hs. apply Is.
      destruct (Handlers.currentJob (Handlers.machine w)) as [p|] eqn:Hc; [|done].
      destruct (Handlers.winv_current _ I _ Hc) as (job & Hj & Hr).
      by destruct (Hall _ _ Hj).
Qed.

Lemma handlers_one_unretrieved_record_witness :
  Handlers.busy_inv (Handlers.machine handlers_started).
Proof.
  refine (proj1 (handlers_one_unretrieved_record handlers_started _)).
  apply (Handlers.reach_step (Handlers.boot 0)
           (Handlers.EvStartJob 0 "id-1"
              {| Handlers.req_method := "POST";
                 Handlers.req_body := Some (ProductKakao, "") |})
           handlers_started
           (Some (Handlers.Encoded (mkJob "id-1" ProductKakao 0 30000000000 None))));
    [apply Handlers.reach_boot|].
  vm_compute. reflexivity.
Defined.

(** X15: the handler-level machine checks no identifier.  A POST to
    [/start-job] with a supported product on an available machine is
    accepted even under an identifier that is in use: the identifier then
    maps to the new record, the old record stays in the history as it was,
    and a [/retrieve-job] for the identifier within the brew duration is
    answered 503, not ready, whatever the state of the old job. *)
Theorem handlers_identifier_reused (m : Handlers.Machine) (now t1 t2 : Z)
    (fresh : string) (product : Product) (jobID : string) (q : nat) (old : Job) :
  Handlers.supported product = true →
  Handlers.state m = StateAvailable →
  jobID ≠ "" →
  Handlers.jobs m !! jobID = Some q →
  Handlers.history m !! q = Some old →
  t1 < now + Handlers.brewDuration →
  let s := Handlers.StartJob m now fresh
             {| Handlers.req_method := "POST";
                Handlers.req_body := Some (product, jobID) |} in
  let m' := Handlers.st_machine s in
  Handlers.st_response s
    = Handlers.Encoded (mkJob jobID product now (now + Handlers.brewDuration) None) ∧
  Handlers.jobs m' !! jobID = Some (length (Handlers.history m)) ∧
  Handlers.history m' !! q = Some old ∧
  length (Handlers.history m') = S (length (Handlers.history m)) ∧
  Handlers.RetrieveJob m' t1 t2 jobID
    = (m', Handlers.Failure "Job not ready" 503).
Proof.
  intros Hp Hs Hne Hq Hold Hlt s m'. subst m' s.
  unfold Handlers.StartJob. simpl. rewrite Hp. simpl.
  rewrite bool_decide_eq_true_2 by done. simpl.
  rewrite (bool_decide_eq_false_2 (jobID = "")) by done.
  split_and!; simpl.
  - done.
  - apply lookup_insert_eq.
  - by apply lookup_app_l_Some.
  - rewrite length_app. simpl. lia.
  - unfold Handlers.RetrieveJob. simpl.
    rewrite (bool_decide_eq_false_2 (jobID = "")) by done.
    rewrite lookup_insert_eq, lookup_app_r, Nat.sub_diag by done. simpl.
    by rewrite (proj2 (Z.ltb_lt _ _) Hlt).
Qed.

Lemma handlers_identifier_reused_witness :
  Handlers.RetrieveJob
    (Handlers.st_machine
       (Handlers.StartJob handlers_idle 40000000000 "id-2"
          {| Handlers.req_method := "POST";
             Handlers.req_body := Some (ProductEspresso, "job-1") |}))
    50000000000 50000000000 "job-1"
  = (Handlers.st_machine
       (Handlers.StartJob handlers_idle 40000000000 "id-2"
          {| Handlers.req_method := "POST";
             Handlers.req_body := Some (ProductEspresso, "job-1") |}),
     Handlers.Failure "Job not ready" 503).
Proof.
  refine (proj2 (proj2 (proj2 (proj2
    (handlers_identifier_reused handlers_idle 40000000000 50000000000
       50000000000 "id-2" ProductEspresso "job-1" 0
       (mkJob "job-1" ProductKakao 0 30000000000 (Some 31000000000))
       _ _ _ _ _ _))))).
  - vm_compute. reflexivity.
  - reflexivity.
  - discriminate.
  - vm_compute. reflexivity.
  - reflexivity.
  - reflexivity.
Defined.

(** * The machine never gets stuck *)

(** X16: a busy machine can always be freed.  In every reachable world
    with a current job, a [RetrieveJob] of that job at any instant that is
    neither before the clock nor before the job's ready instant can happen,
    succeeds, and makes the machine available, whether or not the goroutine
    has run; and while the machine is brewing, the goroutine of the current
    job is asleep and its critical section can happen at any instant from
    its wake instant on, blocking the machine. *)
Theorem busy_machine_can_be_freed (w : World) :
  reachable w →
  Status (machine w) ≠ StateAvailable →
  ∃ job, jobs (machine w) !! currentJob (machine w) = Some job ∧
    (∀ t, clock w ≤ t → JobReady job ≤ t →
       ∃ w', step w (EvRetrieveJob t t (currentJob (machine w)))
               = Some (w', OutJob (Ok (set_retrieved job t))) ∧
             Status (machine w') = StateAvailable) ∧
    (Status (machine w) = StateBrewing →
       ∃ k tm, timers w !! k = Some tm ∧
               timer_job tm = currentJob (machine w) ∧
               ∀ now, clock w ≤ now → timer_wake tm ≤ now →
                 ∃ w', step w (EvAwaitCompletion now k) = Some (w', OutNone) ∧
                       Status (machine w') = StateBlocked).
Proof.
  intros I%reachable_inv Hbusy. pose proof (winv_machine _ I) as IM.
  assert (currentJob (machine w) ≠ "") as Hcur.
  { intros Hc. apply Hbusy. by apply (inv_state _ IM). }
  destruct (inv_current _ IM Hcur) as (job & Hj & Hr).
  exists job. split_and!; [done| |].
  - intros t Hc Hready. simpl.
    rewrite bool_decide_eq_true_2 by lia.
    unfold RetrieveJob. rewrite Hj, Hr, (proj2 (Z.ltb_ge _ _) Hready).
    rewrite bool_decide_eq_true_2 by done. simpl. eauto.
  - intros Hs. apply (winv_brewing _ I Hcur) in Hs.
    apply list_elem_of_fmap in Hs as (tm & Htm & [k Hk]%list_elem_of_lookup).
    exists k, tm. split_and!; [done..|].
    intros now Hc Hwake. simpl. rewrite Hk.
    rewrite bool_decide_eq_true_2 by lia.
    eexists. split; [done|]. simpl.
    unfold awaitCompletion. by rewrite <-Htm, Hj, Hr.
Qed.

Lemma busy_machine_can_be_freed_witness :
  ∃ job, jobs (machine (after 0 brew_job1))
           !! currentJob (machine (after 0 brew_job1)) = Some job.
Proof.
  destruct (busy_machine_can_be_freed (after 0 brew_job1)
              (after_reachable 0 brew_job1)) as (job & Hj & _).
  - vm_compute. discriminate.
  - exists job. exact Hj.
Defined.

(** X17: the probes of the handler-level machine tell the same story.
    [Readyz] and [Status] answer 200 when the machine is available and 503
    otherwise, together; a POST to [StartJob] with a decodable body and a
    supported product is answered 503, machine is busy, exactly when
    [Readyz] answers 503, and is accepted otherwise; the text of [Metrics]
    determines the state; [Healthz] answers 200 whatever the state. *)
Theorem handlers_probes_agree (m : Handlers.Machine) :
  ((Handlers.Readyz m).1 = 200 ↔ Handlers.state m = StateAvailable) ∧
  ((Handlers.Readyz m).1 = 503 ↔ Handlers.state m ≠ StateAvailable) ∧
  (Handlers.Status m).1 = (Handlers.Readyz m).1 ∧
  (∀ now fresh product jobID, Handlers.supported product = true →
     let s := Handlers.StartJob m now fresh
                {| Handlers.req_method := "POST";
                   Handlers.req_body := Some (product, jobID) |} in
     (Handlers.st_response s = Handlers.Failure "Machine is busy" 503
        ↔ (Handlers.Readyz m).1 = 503) ∧
     ((∃ job, Handlers.st_response s = Handlers.Encoded job)
        ↔ (Handlers.Readyz m).1 = 200)) ∧
  (∀ m', Handlers.Metrics m = Handlers.Metrics m'
         ↔ Handlers.state m = Handlers.state m') ∧
  (Handlers.Healthz m).1 = 200.
Proof.
  unfold Handlers.Readyz, Handlers.Status. split_and!; try done.
  - case_bool_decide; simpl; reply_side.
  - case_bool_decide; simpl; reply_side.
  - by case_bool_decide.
  - intros now fresh product jobID Hp. unfold Handlers.StartJob. simpl.
    rewrite Hp. simpl. case_bool_decide; simpl; split; reply_side.
  - intros m'. unfold Handlers.Metrics. split; [|by intros ->].
    destruct (Handlers.state m), (Handlers.state m'); vm_compute; intros Heq;
      first [reflexivity | discriminate Heq].
Qed.
